(** * Service-install reconciliation hooks of open-balena-api

    A shallow embedding of [src/features/ci-cd/hooks/service-installs.ts]
    (the reconciler [createReleaseServiceInstalls], the purge
    [deleteServiceInstallsForCurrentApp] and the pinejs hooks that call them)
    together with the post-commit notifier hook that follows it in the same
    source file, and of the device configuration generator
    [generateConfig].

    The pinejs client is an external collaborator.  It is modelled as a set of
    relational tables ([Store]) on which [api.get], [api.post] and
    [api.delete] act; every call is recorded, in the order in which the code
    issues it, with the client handle ([passthrough] transaction and
    permission request) it was issued through.  Row-level access control and
    database constraints live inside pinejs and are not part of these
    sources: a read returns every row its filter matches, a post appends a
    row. *)

From Stdlib Require Import ZArith List Bool Lia String Sorted.
Import ListNotations.
Local Open Scope Z_scope.

(** ** balena-model: the rows the hooks read and write *)

Module Device.
Record t := mk {
  id : Z;
  belongs_to__application : Z;
  should_be_running__release : option Z;
  is_running__release : option Z;
  should_be_managed_by__release : option Z
}.
End Device.

Module Application.
Record t := mk {
  id : Z;
  should_be_running__release : option Z
}.
End Application.

Module Release.
Record t := mk {
  id : Z;
  belongs_to__application : Z
}.
End Release.

Module Service.
Record t := mk {
  id : Z;
  application : Z
}.
End Service.

Module Image.
Record t := mk {
  id : Z;
  is_a_build_of__service : Z
}.
End Image.

(** The join resource "image is part of release". *)
Module ImageRelease.
Record t := mk {
  image : Z;
  is_part_of__release : Z
}.
End ImageRelease.

Module ServiceInstall.
Record t := mk {
  device : Z;
  installs__service : Z
}.
End ServiceInstall.

Record Store := mkStore {
  device : list Device.t;
  application : list Application.t;
  release : list Release.t;
  image : list Image.t;
  image__is_part_of__release : list ImageRelease.t;
  service : list Service.t;
  service_install : list ServiceInstall.t
}.

Definition with_service_install (s : Store) (rows : list ServiceInstall.t) : Store :=
  mkStore (device s) (application s) (release s) (image s)
          (image__is_part_of__release s) (service s) rows.

(** ** pinejs-client filters

    Only the filter shapes that occur in the source are represented. *)

(** One key of a filter object on [device]; the keys of an object are
    conjoined. *)
Inductive DeviceClause :=
| id_in (ids : list Z)                          (* id: { $in: ids } *)
| belongs_to__application_in (ids : list Z)     (* belongs_to__application: { $in: ids } *)
| should_be_running__release_null               (* should_be_running__release: null *)
| is_running__release_ne (r : Z).               (* is_running__release: { $ne: r } *)

Definition FilterObj := list DeviceClause.

(** [releaseFilter]: the two objects the source passes. *)
Inductive Filter :=
| release_id (r : Z)                                    (* { id: r } *)
| should_be_running_on__application_id (appId : Z).     (* { should_be_running_on__application: { $any: a.id = appId } } *)

Definition mem (x : Z) (l : list Z) : bool := existsb (Z.eqb x) l.

Definition is_null (o : option Z) : bool :=
  match o with None => true | Some _ => false end.

(** OData [ne]: a null operand is not equal to any number. *)
Definition ne (o : option Z) (r : Z) : bool :=
  match o with None => true | Some x => negb (x =? r) end.

Definition eval_clause (c : DeviceClause) (d : Device.t) : bool :=
  match c with
  | id_in ids => mem (Device.id d) ids
  | belongs_to__application_in ids => mem (Device.belongs_to__application d) ids
  | should_be_running__release_null => is_null (Device.should_be_running__release d)
  | is_running__release_ne r => ne (Device.is_running__release d) r
  end.

Definition eval_filter (f : FilterObj) (d : Device.t) : bool :=
  forallb (fun c => eval_clause c d) f.

Definition eval_release_filter (s : Store) (f : Filter) (r : Release.t) : bool :=
  match f with
  | release_id n => Release.id r =? n
  | should_be_running_on__application_id appId =>
      existsb (fun a =>
                 match Application.should_be_running__release a with
                 | Some p => (p =? Release.id r) && (Application.id a =? appId)
                 | None => false
                 end)
              (application s)
  end.

(** The [service] filter of [createReleaseServiceInstalls]:
    is_built_by__image / is_part_of__release / release / [releaseFilter]. *)
Definition service_of_release (s : Store) (releaseFilter : Filter) (sv : Service.t) : bool :=
  existsb (fun i =>
    (Image.is_a_build_of__service i =? Service.id sv) &&
    existsb (fun ipr =>
      (ImageRelease.image ipr =? Image.id i) &&
      existsb (fun r =>
        (Release.id r =? ImageRelease.is_part_of__release ipr) &&
        eval_release_filter s releaseFilter r)
      (release s))
    (image__is_part_of__release s))
  (image s).

(** [number[] | FilterObj] *)
Inductive DeviceSelector :=
| Ids (ids : list Z)
| Obj (f : FilterObj).

(** The [device] key of the [service_install] read:
    [{ $in: ids }] for an array, [{ $any: d matches the filter }] otherwise. *)
Definition install_device_matches (s : Store) (sel : DeviceSelector) (si : ServiceInstall.t) : bool :=
  match sel with
  | Ids ids => mem (ServiceInstall.device si) ids
  | Obj f =>
      existsb (fun d => (Device.id d =? ServiceInstall.device si) && eval_filter f d)
              (device s)
  end.

(** The filter of [deleteServiceInstallsForCurrentApp]: the install's device
    is in [deviceIds] and its service has an application that owns a device
    whose id is in [deviceIds]. *)
Definition current_app_install (s : Store) (deviceIds : list Z) (si : ServiceInstall.t) : bool :=
  mem (ServiceInstall.device si) deviceIds &&
  existsb (fun sv =>
    (Service.id sv =? ServiceInstall.installs__service si) &&
    existsb (fun a =>
      (Application.id a =? Service.application sv) &&
      existsb (fun d =>
        (Device.belongs_to__application d =? Application.id a) &&
        mem (Device.id d) deviceIds)
      (device s))
    (application s))
  (service s).

(** ** The pinejs client *)

(** [req] of a client's passthrough: [permissions.root] or the request of the
    mutation's caller. *)
Inductive Req :=
| root
| caller (actor : Z).

Record PinejsClient := mkApi {
  passthrough_tx : Z;
  passthrough_req : Req
}.

(** [api.clone({ passthrough: { tx, req } })] *)
Definition clone (_ : PinejsClient) (tx : Z) (req : Req) : PinejsClient :=
  mkApi tx req.

Inductive Resource := r_device | r_service | r_service_install.

Inductive Call :=
| Get (api : PinejsClient) (resource : Resource)
| Post (api : PinejsClient) (body : ServiceInstall.t)
| Delete (api : PinejsClient) (resource : Resource).

(** A hook body: a store transformer that also yields the calls it
    issued, oldest first. *)
Definition M (A : Type) : Type := Store -> A * Store * list Call.

Definition ret {A} (a : A) : M A := fun s => (a, s, []).

Definition bind {A B} (m : M A) (k : A -> M B) : M B :=
  fun s =>
    let '(a, s1, c1) := m s in
    let '(b, s2, c2) := k a s1 in
    (b, s2, c1 ++ c2).

Declare Scope hook_scope.
Delimit Scope hook_scope with hook.
Notation "x <- m ;; k" := (bind m (fun x => k))
  (at level 61, m at next level, right associativity) : hook_scope.
Notation "m ;; k" := (bind m (fun _ => k))
  (at level 61, right associativity) : hook_scope.
Local Open Scope hook_scope.

Definition result {A} (r : A * Store * list Call) : A := fst (fst r).
Definition store_of {A} (r : A * Store * list Call) : Store := snd (fst r).
Definition calls {A} (r : A * Store * list Call) : list Call := snd r.

(** [await Promise.all(xs.map(async x => ...))]: the bodies are started in
    array order.  Bodies that only post issue their posts in that order.
    Bodies that read before they post (the per-application runs of the
    device hook) would interleave at their awaits; they are run one after
    the other here, and [PATCH_device_POSTRUN_null_rows] below shows that
    the rows they post are those each would post from the initial store. *)
Fixpoint forM_ {A} (xs : list A) (f : A -> M unit) : M unit :=
  match xs with
  | [] => ret tt
  | x :: xs' => f x ;; forM_ xs' f
  end.

Definition get_device (api : PinejsClient) (f : FilterObj) : M (list Device.t) :=
  fun s => (filter (eval_filter f) (device s), s, [Get api r_device]).

Definition get_service (api : PinejsClient) (releaseFilter : Filter) : M (list Service.t) :=
  fun s => (filter (service_of_release s releaseFilter) (service s), s, [Get api r_service]).

Definition get_service_install (api : PinejsClient) (sel : DeviceSelector)
    (serviceIds : list Z) : M (list ServiceInstall.t) :=
  fun s =>
    (filter (fun si => install_device_matches s sel si &&
                       mem (ServiceInstall.installs__service si) serviceIds)
            (service_install s),
     s, [Get api r_service_install]).

Definition post_service_install (api : PinejsClient) (body : ServiceInstall.t) : M unit :=
  fun s => (tt, with_service_install s (service_install s ++ [body]), [Post api body]).

Definition delete_service_install (api : PinejsClient) (deviceIds : list Z) : M unit :=
  fun s =>
    (tt,
     with_service_install s
       (filter (fun si => negb (current_app_install s deviceIds si)) (service_install s)),
     [Delete api r_service_install]).

(** ** lodash *)

(** [_.groupBy]: an object keyed by ids; integer keys enumerate in ascending
    order, the rows of a key keep their order. *)
Fixpoint group_insert {A} (k : Z) (x : A) (g : list (Z * list A)) : list (Z * list A) :=
  match g with
  | [] => [(k, [x])]
  | (k', xs) :: g' =>
      if k =? k' then (k', xs ++ [x]) :: g'
      else if k <? k' then (k, [x]) :: g
      else (k', xs) :: group_insert k x g'
  end.

Definition groupBy {A} (key : A -> Z) (xs : list A) : list (Z * list A) :=
  fold_left (fun g x => group_insert (key x) x g) xs [].

(** [obj[k]], with [undefined] read as the empty collection by [_.map]. *)
Fixpoint lookup {A} (k : Z) (g : list (Z * list A)) : list A :=
  match g with
  | [] => []
  | (k', xs) :: g' => if k =? k' then xs else lookup k g'
  end.

(** [_.difference] *)
Definition difference (xs ys : list Z) : list Z :=
  filter (fun x => negb (mem x ys)) xs.

(** ** service-installs.ts *)

(** [deviceFilterOrIds.length === 0]: an array has a length, a filter object
    on [device] has no [length] key. *)
Definition length_is_zero (sel : DeviceSelector) : bool :=
  match sel with
  | Ids [] => true
  | Ids (_ :: _) => false
  | Obj _ => false
  end.

Definition createReleaseServiceInstalls (api : PinejsClient)
    (deviceFilterOrIds : DeviceSelector) (releaseFilter : Filter) : M unit :=
  deviceIds <- match deviceFilterOrIds with
               | Ids ids => ret ids
               | Obj f => ds <- get_device api f ;; ret (map Device.id ds)
               end ;;
  if length_is_zero deviceFilterOrIds then ret tt
  else
    services <- get_service api releaseFilter ;;
    match services with
    | [] => ret tt
    | _ :: _ =>
        let serviceIds := map Service.id services in
        serviceInstalls <- get_service_install api deviceFilterOrIds serviceIds ;;
        let serviceInstallsByDevice := groupBy ServiceInstall.device serviceInstalls in
        forM_ deviceIds (fun deviceId =>
          let existingServiceIds :=
            map ServiceInstall.installs__service (lookup deviceId serviceInstallsByDevice) in
          let deviceServiceIds := difference serviceIds existingServiceIds in
          forM_ deviceServiceIds (fun serviceId =>
            post_service_install api (ServiceInstall.mk deviceId serviceId)))
    end.

Definition createAppServiceInstalls (api : PinejsClient) (appId : Z)
    (deviceIds : list Z) : M unit :=
  createReleaseServiceInstalls api (Ids deviceIds)
    (should_be_running_on__application_id appId).

Definition deleteServiceInstallsForCurrentApp (api : PinejsClient)
    (deviceIds : list Z) : M unit :=
  delete_service_install api deviceIds.

(** ** The hooks *)

(** A field of [request.values]. *)
Inductive JsValue :=
| undefined
| null
| number (n : Z).

Module Values.
Record t := mk {
  belongs_to__application : JsValue;
  should_be_running__release : JsValue;
  should_be_managed_by__release : JsValue
}.
End Values.

(** [odataQuery] stands for the rows the request addresses; pinejs resolves
    it to [affectedIds] before a PATCH runs. *)
Record Request := mkRequest {
  values : Values.t;
  affectedIds : list Z;
  odataQuery : FilterObj
}.

Definition is_empty {A} (l : list A) : bool :=
  match l with [] => true | _ :: _ => false end.

(** [sbvrUtils.getAffectedIds(args)] of pinejs: the ids of the rows the
    request addresses, read through the hook's own client. *)
Definition getAffectedIds (api : PinejsClient) (request : Request) : M (list Z) :=
  ds <- get_device api (odataQuery request) ;;
  ret (map Device.id ds).

(** hooks.addPureHook('PATCH', 'resin', 'application', { POSTRUN }) *)
Definition PATCH_application_POSTRUN (api : PinejsClient) (request : Request) : M unit :=
  let affectedIds := affectedIds request in
  match Values.should_be_running__release (values request) with
  | number pin =>
      if negb (is_empty affectedIds) then
        createReleaseServiceInstalls api
          (Obj [belongs_to__application_in affectedIds; should_be_running__release_null])
          (release_id pin)
      else ret tt
  | _ => ret tt
  end.

(** hooks.addPureHook('POST', 'resin', 'device', { POSTRUN }), the first one.
    A device row is never created without its application, so the value is a
    number whenever [result] is an id. *)
Definition POST_device_POSTRUN (api : PinejsClient) (tx : Z) (request : Request)
    (result : option Z) : M unit :=
  match result with
  | None => ret tt
  | Some deviceId =>
      let rootApi := clone api tx root in
      match Values.belongs_to__application (values request) with
      | number appId => createAppServiceInstalls rootApi appId [deviceId]
      | _ => ret tt
      end
  end.

(** hooks.addPureHook('PATCH', 'resin', 'device', { PRERUN }) *)
Definition PATCH_device_PRERUN (api : PinejsClient) (request : Request) : M unit :=
  match Values.belongs_to__application (values request) with
  | number appId =>
      affectedIds <- getAffectedIds api request ;;
      if negb (is_empty affectedIds) then
        deleteServiceInstallsForCurrentApp api affectedIds ;;
        createAppServiceInstalls api appId affectedIds
      else ret tt
  | _ => ret tt
  end.

(** hooks.addPureHook('PATCH', 'resin', 'device', { POSTRUN }), release pin. *)
Definition PATCH_device_POSTRUN (api : PinejsClient) (request : Request) : M unit :=
  let affectedIds := affectedIds request in
  match Values.should_be_running__release (values request) with
  | undefined => ret tt
  | pin =>
      if negb (is_empty affectedIds) then
        match pin with
        | number r =>
            createReleaseServiceInstalls api (Ids affectedIds) (release_id r)
        | _ =>
            devices <- get_device api [id_in affectedIds] ;;
            let devicesByApp := groupBy Device.belongs_to__application devices in
            forM_ (map fst devicesByApp) (fun appId =>
              match lookup appId devicesByApp with
              | d0 :: _ =>
                  createAppServiceInstalls api
                    (Device.belongs_to__application d0)
                    (map Device.id (lookup appId devicesByApp))
              | [] => ret tt
              end)
        end
      else ret tt
  end.

(** hooks.addPureHook('POST', 'resin', 'device', { POSTRUN }), supervisor. *)
Definition POST_device_POSTRUN_supervisor (api : PinejsClient) (tx : Z)
    (request : Request) (result : option Z) : M unit :=
  match result with
  | None => ret tt
  | Some deviceId =>
      let rootApi := clone api tx root in
      match Values.should_be_managed_by__release (values request) with
      | number r => createReleaseServiceInstalls rootApi (Ids [deviceId]) (release_id r)
      | _ => ret tt
      end
  end.

(** hooks.addPureHook('PATCH', 'resin', 'device', { POSTRUN }), supervisor. *)
Definition PATCH_device_POSTRUN_supervisor (api : PinejsClient) (request : Request) : M unit :=
  let affectedIds := affectedIds request in
  match Values.should_be_managed_by__release (values request) with
  | number r =>
      if negb (is_empty affectedIds) then
        createReleaseServiceInstalls api (Ids affectedIds) (release_id r)
      else ret tt
  | _ => ret tt
  end.

(** ** The notifier hook

    [postDevices] (device-proxy) and [captureException] (error-handling) are
    imported from modules outside these sources.  [postDevices] is taken as
    given: from the requests already sent and the new request it either
    resolves ([None]) or rejects with an error.  [captureException] records
    the error and its message in the error sink and returns. *)

Record PostDevicesArgs := mkPostDevicesArgs {
  url : string;
  req : Req;
  filter_ : FilterObj;
  wait : bool
}.

Section Notifier.
Variable Error : Type.
Variable postDevices : list PostDevicesArgs -> PostDevicesArgs -> option Error.

(** What lies outside the transaction: the requests sent to the device
    proxy and the error sink. *)
Record Outside := mkOutside {
  posted : list PostDevicesArgs;
  captured : list (Error * string)
}.

(** An async listener: it settles with [None] when its promise resolves and
    with [Some err] when it rejects. *)
Definition Listener : Type := Outside -> option Error * Outside.

Definition captureException (err : Error) (message : string) (o : Outside) : Outside :=
  mkOutside (posted o) (captured o ++ [(err, message)]).

Definition update_filter (affectedIds : list Z) (pin : Z) : FilterObj :=
  [ belongs_to__application_in affectedIds;
    is_running__release_ne pin;
    should_be_running__release_null ].

(** The callback given to [tx.on('end', ...)]. *)
Definition notify_updates (affectedIds : list Z) (pin : Z) : Listener :=
  fun o =>
    let args := mkPostDevicesArgs "/v1/update" root (update_filter affectedIds pin) false in
    let o1 := mkOutside (posted o ++ [args]) (captured o) in
    match postDevices (posted o) args with
    | None => (None, o1)
    | Some err => (None, captureException err "Error notifying device updates" o1)
    end.

(** hooks.addPureHook('PATCH', 'resin', 'application', { POSTRUN }) of the
    notifier: the listeners of the transaction's 'end' event after the hook
    ran, given those registered before. *)
Definition PATCH_application_POSTRUN_notifier (request : Request)
    (on_end : list Listener) : list Listener :=
  let affectedIds := affectedIds request in
  match Values.should_be_running__release (values request) with
  | number pin =>
      if negb (is_empty affectedIds) then on_end ++ [notify_updates affectedIds pin]
      else on_end
  | _ => on_end
  end.

(** The transaction emits 'end' once it is committed: every listener runs;
    the rejections of their promises are collected. *)
Fixpoint emit_end (listeners : list Listener) (o : Outside) : list Error * Outside :=
  match listeners with
  | [] => ([], o)
  | l :: ls =>
      let '(r, o1) := l o in
      let '(rs, o2) := emit_end ls o1 in
      (match r with Some e => e :: rs | None => rs end, o2)
  end.
End Notifier.

Arguments mkOutside {Error}.
Arguments posted {Error}.
Arguments captured {Error}.

(** ** Reading a run *)

Definition call_api (c : Call) : PinejsClient :=
  match c with
  | Get api _ => api
  | Post api _ => api
  | Delete api _ => api
  end.

Definition is_post (c : Call) : bool :=
  match c with Post _ _ => true | _ => false end.

Definition is_delete (c : Call) : bool :=
  match c with Delete _ _ => true | _ => false end.

Definition is_get (res : Resource) (c : Call) : bool :=
  match c, res with
  | Get _ r_device, r_device => true
  | Get _ r_service, r_service => true
  | Get _ r_service_install, r_service_install => true
  | _, _ => false
  end.

(** The device ids [createReleaseServiceInstalls] iterates over. *)
Definition resolved_ids (s : Store) (sel : DeviceSelector) : list Z :=
  match sel with
  | Ids ids => ids
  | Obj f => map Device.id (filter (eval_filter f) (device s))
  end.

(** The ids of the services the release filter resolves to. *)
Definition release_service_ids (s : Store) (releaseFilter : Filter) : list Z :=
  map Service.id (filter (service_of_release s releaseFilter) (service s)).

(** The rows read as already installed. *)
Definition installed (s : Store) (sel : DeviceSelector) (serviceIds : list Z)
  : list ServiceInstall.t :=
  filter (fun si => install_device_matches s sel si &&
                    mem (ServiceInstall.installs__service si) serviceIds)
         (service_install s).

(** The rows one run posts, in the order of the posts. *)
Definition missing (s : Store) (sel : DeviceSelector) (releaseFilter : Filter)
  : list ServiceInstall.t :=
  if length_is_zero sel then []
  else
    let serviceIds := release_service_ids s releaseFilter in
    let byDevice := groupBy ServiceInstall.device (installed s sel serviceIds) in
    flat_map (fun deviceId =>
                map (ServiceInstall.mk deviceId)
                    (difference serviceIds
                       (map ServiceInstall.installs__service (lookup deviceId byDevice))))
             (resolved_ids s sel).

(** The reads one run issues before its posts. *)
Definition reads (api : PinejsClient) (s : Store) (sel : DeviceSelector)
    (releaseFilter : Filter) : list Call :=
  (match sel with Ids _ => [] | Obj _ => [Get api r_device] end) ++
  (if length_is_zero sel then []
   else Get api r_service ::
        (if is_empty (release_service_ids s releaseFilter) then []
         else [Get api r_service_install])).

(** Two stores that differ at most in their [service_install] rows. *)
Definition same_tables (s s' : Store) : Prop :=
  device s' = device s /\ application s' = application s /\
  release s' = release s /\ image s' = image s /\
  image__is_part_of__release s' = image__is_part_of__release s /\
  service s' = service s.

(** A hook body that only posts: the rows present before remain, in place,
    and no delete is issued. *)
Definition additive {A} (m : M A) : Prop :=
  forall s,
    same_tables s (store_of (m s)) /\
    (exists added, service_install (store_of (m s)) = service_install s ++ added) /\
    (forall c, In c (calls (m s)) -> is_delete c = false).

(** Every call of a hook body goes through the client [api]. *)
Definition issued_through (api : PinejsClient) {A} (m : M A) : Prop :=
  forall s c, In c (calls (m s)) -> call_api c = api.

(** The keys of a [_.groupBy] object enumerate in ascending order. *)
Definition keys_sorted {A} (g : list (Z * list A)) : Prop :=
  StronglySorted Z.lt (map fst g).

(** ** A small fleet

    Application 1 is pinned to release 9, whose images build services 1 and
    2; application 2 is pinned to release 12, whose image builds service 3.
    Device 10 of application 1 tracks the application's pin, device 11 of
    application 1 is pinned to release 7 (service 1), device 20 belongs to
    application 2.  Device 11 has its install of service 1 and device 10 an
    install of service 3. *)

Definition fleet : Store :=
  mkStore
    [ Device.mk 10 1 None (Some 7) None;
      Device.mk 11 1 (Some 7) (Some 7) None;
      Device.mk 20 2 None None None ]
    [ Application.mk 1 (Some 9); Application.mk 2 (Some 12) ]
    [ Release.mk 7 1; Release.mk 9 1; Release.mk 12 2 ]
    [ Image.mk 100 1; Image.mk 101 2; Image.mk 102 3; Image.mk 103 1 ]
    [ ImageRelease.mk 100 9; ImageRelease.mk 101 9; ImageRelease.mk 102 12;
      ImageRelease.mk 103 7 ]
    [ Service.mk 1 1; Service.mk 2 1; Service.mk 3 2 ]
    [ ServiceInstall.mk 11 1; ServiceInstall.mk 10 3 ].

(** A store with no rows at all. *)
Definition empty_store : Store := mkStore [] [] [] [] [] [] [].

(** The client of a hook run for user 7 in transaction 1. *)
Definition user_api : PinejsClient := mkApi 1 (caller 7).

(** PATCH the devices 10 and 20: move them to application 2. *)
Definition move_devices : Request :=
  mkRequest (Values.mk (number 2) undefined undefined) [] [id_in [10; 20]].

(** PATCH the devices 10, 11 and 20: clear their release pin. *)
Definition unpin_devices : Request :=
  mkRequest (Values.mk undefined null undefined) [10; 11; 20] [].

(** POST device: device 30 was created in application 1 with its supervisor
    pinned to release 7. *)
Definition create_device : Request :=
  mkRequest (Values.mk (number 1) undefined (number 7)) [] [].

(** A device proxy that refuses every request. *)
Definition refusing_proxy (_ : list PostDevicesArgs) (_ : PostDevicesArgs) : option string :=
  Some "ECONNREFUSED"%string.

(** PATCH application 1: pin it to release 9. *)
Definition pin_application : Request :=
  mkRequest (Values.mk undefined (number 9) undefined) [1] [].

(** The number of rows that pair device [i] with service [sv]. *)
Definition count_rows (i sv : Z) (rows : list ServiceInstall.t) : nat :=
  List.length (filter (fun row => (ServiceInstall.device row =? i) &&
                             (ServiceInstall.installs__service row =? sv)) rows).

(** A hook body that can be replayed: run again on the store it left, it
    posts nothing and leaves that store as it is. *)
Definition replay_safe (m : M unit) : Prop :=
  forall s,
    store_of (m (store_of (m s))) = store_of (m s) /\
    forall c, In c (calls (m (store_of (m s)))) -> is_post c = false.

(** No row of the application with this id carries a release pin. *)
Definition unpinned_application (s : Store) (appId : Z) : Prop :=
  forall a, In a (application s) -> Application.id a = appId ->
            Application.should_be_running__release a = None.

(** [v != null] *)
Definition not_nullish (v : JsValue) : bool :=
  match v with number _ => true | _ => false end.

(** The request the notifier sends for a PATCH on application, if any. *)
Definition update_request (request : Request) : list PostDevicesArgs :=
  match Values.should_be_running__release (values request) with
  | number pin =>
      if is_empty (affectedIds request) then []
      else [mkPostDevicesArgs "/v1/update" root
              (update_filter (affectedIds request) pin) false]
  | _ => []
  end.

(** ** generateConfig

    The device configuration generator ([generateConfig]).  What it imports
    is taken as given: [getUser], the two key constructors, [semver],
    [fs.promises], [Buffer], [captureException], [deviceConfig.generate],
    the constants of [lib/config] and express's [req.param].  A promise is
    the value it settles with: [inl] when it resolves, [inr] when it
    rejects. *)

Module GenerateConfig.

(** The JavaScript values the function looks into. *)
Inductive Json :=
| j_undefined
| j_null
| j_bool (b : bool)
| j_number (n : Z)
| j_string (s : string).

Definition nullish (v : Json) : bool :=
  match v with j_undefined | j_null => true | _ => false end.

(** [a ?? b] *)
Definition coalesce (a b : Json) : Json := if nullish a then b else a.

(** [typeof v === 'string'] *)
Definition as_string (v : Json) : option string :=
  match v with j_string s => Some s | _ => None end.

(** [s.endsWith(suffix)] *)
Fixpoint endsWith (s suffix : string) : bool :=
  String.eqb s suffix ||
  match s with
  | EmptyString => false
  | String _ s' => endsWith s' suffix
  end.

Record Request := mkRequest {
  body : string -> Json;
  query : string -> Json;
  param : string -> Json
}.

(** An option of a device type; a group carries [isGroup] and its own
    options. *)
#[warnings="-register-all"] Inductive DeviceTypeOption :=
| mkOption (name : string) (isGroup : option bool) (options : list DeviceTypeOption).

Definition name (opt : DeviceTypeOption) : string :=
  match opt with mkOption n _ _ => n end.

Definition isGroup (opt : DeviceTypeOption) : option bool :=
  match opt with mkOption _ g _ => g end.

Definition options (opt : DeviceTypeOption) : list DeviceTypeOption :=
  match opt with mkOption _ _ os => os end.

(** The object [deviceConfig.generate] returns: its keys, in insertion
    order. *)
Definition Config := list (string * Json).

(** [config[k] = v] *)
Fixpoint set (k : string) (v : Json) (config : Config) : Config :=
  match config with
  | [] => [(k, v)]
  | (k', v') :: rest =>
      if String.eqb k k' then (k, v) :: rest else (k', v') :: set k v rest
  end.

(** [config[k]]; [None] when the object has no such key. *)
Fixpoint get (k : string) (config : Config) : option Json :=
  match config with
  | [] => None
  | (k', v) :: rest => if String.eqb k k' then Some v else get k rest
  end.

(** The callback of [flatMap]: a group is replaced by its options, unless it
    is the network or the advanced group, which is dropped; anything else
    stays. *)
Definition flatten (opt : DeviceTypeOption) : list DeviceTypeOption :=
  match isGroup opt with
  | Some true =>
      if String.eqb (name opt) "network" || String.eqb (name opt) "advanced" then []
      else options opt
  | _ => [opt]
  end.

(** [_(options).flatMap(...).each(({ name }) => config[name] = req.param(name))] *)
Definition assign_options (req : Request) (opts : list DeviceTypeOption)
    (config : Config) : Config :=
  fold_left (fun c opt => set (name opt) (param req (name opt)) c)
            (flat_map flatten opts) config.

(** [osVersion === 'latest' ? undefined : osVersion?.endsWith('.dev')] *)
Definition developmentMode (osVersion : option string) : option bool :=
  match osVersion with
  | None => None
  | Some v => if String.eqb v "latest" then None else Some (endsWith v ".dev")
  end.

Record ApiKeyOptions (Date : Type) := mkApiKeyOptions {
  key_name : option string;
  expiryDate : option Date
}.
Arguments mkApiKeyOptions {Date}.
Arguments key_name {Date}.
Arguments expiryDate {Date}.

Record Endpoints := mkEndpoints {
  api : string;
  delta : string;
  registry : string;
  vpn : string
}.

(** The two arguments of [deviceConfig.generate]. *)
Record GenerateOptions (User Application : Type) := mkGenerateOptions {
  application : Application;
  deviceType : string;
  user : User;
  apiKey : string;
  mixpanel_token : string;
  vpnPort : Json;
  endpoints : Endpoints;
  version : option string
}.
Arguments mkGenerateOptions {User Application}.
Arguments application {User Application}.
Arguments deviceType {User Application}.
Arguments user {User Application}.
Arguments apiKey {User Application}.
Arguments mixpanel_token {User Application}.
Arguments vpnPort {User Application}.
Arguments endpoints {User Application}.
Arguments version {User Application}.

Record GenerateParams := mkGenerateParams {
  appUpdatePollInterval : Json;
  network : Json;
  wifiSsid : Json;
  wifiKey : Json;
  ip : Json;
  gateway : Json;
  netmask : Json
}.

(** What the module imports. [minutes_to_ms v] stands for
    [parseInt(v, 10) * 60 * 1000].  [generate] is [deviceConfig.generate]:
    it validates its arguments, and returns the configuration ([inl]) or
    throws ([inr]). *)
Record Externals := mkExternals {
  User : Type;
  Application : Type;
  Err : Type;
  Date : Type;
  user_id : User -> Z;
  app_id : Application -> Z;
  getUser : Request -> User + Err;
  semver_lte : string -> string -> bool;
  semver_satisfies : string -> string -> bool;
  createUserApiKey : Request -> Z -> string + Err;
  createProvisioningApiKey : Request -> Z -> ApiKeyOptions Date -> string + Err;
  new_Date : string -> Date;
  stat : string -> option Err;
  readFile : string -> string + Err;
  code : Err -> option string;
  to_base64 : string -> string;
  minutes_to_ms : Json -> Json;
  API_HOST : string;
  DELTA_HOST : string;
  MIXPANEL_TOKEN : string;
  REGISTRY2_HOST : string;
  VPN_HOST : string;
  VPN_PORT : Json;
  NODE_EXTRA_CA_CERTS : option string;
  generate : GenerateOptions User Application -> GenerateParams -> Config + Err
}.

Inductive Failure (E : Externals) :=
| BadRequestError (message : string)
| Thrown (err : Err E).
Arguments BadRequestError {E}.
Arguments Thrown {E}.

Inductive Outcome (E : Externals) :=
| Resolved (config : Config)
| Rejected (failure : Failure E).
Arguments Resolved {E}.
Arguments Rejected {E}.

(** What a run asks of the outside: the keys it has created and the errors it
    has reported. *)
Record Effects (E : Externals) := mkEffects {
  userKeys : list Z;
  provisioningKeys : list (Z * ApiKeyOptions (Date E));
  captured : list (Err E * string)
}.
Arguments mkEffects {E}.
Arguments userKeys {E}.
Arguments provisioningKeys {E}.
Arguments captured {E}.

(** The options of a provisioning key: body before query, strings only. *)
Definition apiKeyOptions (E : Externals) (req : Request) : ApiKeyOptions (Date E) :=
  let keyName :=
    coalesce (body req "provisioningKeyName")
      (coalesce (query req "provisioningKeyName") j_undefined) in
  let expiry :=
    coalesce (body req "provisioningKeyExpiry")
      (coalesce (query req "provisioningKeyExpiry") j_undefined) in
  mkApiKeyOptions (as_string keyName) (option_map (new_Date E) (as_string expiry)).

(** [osVersion != null && semver.satisfies(osVersion, '<2.7.8')] *)
Definition wants_user_key (E : Externals) (osVersion : option string) : bool :=
  match osVersion with
  | Some v => semver_satisfies E v "<2.7.8"
  | None => false
  end.

(** [apiKeyPromise]: the key, with the key requests made on the way. *)
Definition apiKeyPromise (E : Externals) (req : Request) (app : Application E)
    (osVersion : option string) (userPromise : User E + Err E)
  : (string + Err E) * list Z * list (Z * ApiKeyOptions (Date E)) :=
  if wants_user_key E osVersion then
    match userPromise with
    | inl u => (createUserApiKey E req (user_id E u), [user_id E u], [])
    | inr err => (inr err, [], [])
    end
  else
    (createProvisioningApiKey E req (app_id E app) (apiKeyOptions E req),
     [], [(app_id E app, apiKeyOptions E req)]).

(** The [catch] of [selfSignedRootPromise]. *)
Definition report_unless_missing (E : Externals) (err : Err E) : list (Err E * string) :=
  match code E err with
  | Some c => if String.eqb c "ENOENT" then []
              else [(err, "Self-signed root CA could not be read"%string)]
  | None => [(err, "Self-signed root CA could not be read"%string)]
  end.

(** [selfSignedRootPromise]: the encoded certificate, if one was read, with
    the errors reported on the way.  It never rejects. *)
Definition selfSignedRootPromise (E : Externals) : option string * list (Err E * string) :=
  match NODE_EXTRA_CA_CERTS E with
  | None => (None, [])
  | Some caFile =>
      if String.eqb caFile "" then (None, [])
      else
        match stat E caFile with
        | Some err => (None, report_unless_missing E err)
        | None =>
            match readFile E caFile with
            | inl pem => (Some (to_base64 E pem), [])
            | inr err => (None, report_unless_missing E err)
            end
        end
  end.

(** [osVersion != null && semver.lte(osVersion, '1.2.0')] *)
Definition unsupported (E : Externals) (osVersion : option string) : bool :=
  match osVersion with
  | Some v => semver_lte E v "1.2.0"
  | None => false
  end.

(** The call of [deviceConfig.generate]. *)
Definition generated (E : Externals) (req : Request) (app : Application E) (slug : string)
    (u : User E) (key : string) (osVersion : option string) : Config + Err E :=
  generate E
    (mkGenerateOptions app slug u key (MIXPANEL_TOKEN E) (VPN_PORT E)
       (mkEndpoints ("https://" ++ API_HOST E) ("https://" ++ DELTA_HOST E)
                    (REGISTRY2_HOST E) (VPN_HOST E))
       osVersion)
    (mkGenerateParams
       (minutes_to_ms E (param req "appUpdatePollInterval"))
       (coalesce (body req "network") (query req "network"))
       (param req "wifiSsid") (param req "wifiKey") (param req "ip")
       (param req "gateway") (param req "netmask")).

Definition generateConfig (E : Externals) (req : Request) (app : Application E)
    (slug : string) (deviceTypeOptions : list DeviceTypeOption)
    (osVersion : option string) : Outcome E * Effects E :=
  let userPromise := getUser E req in
  if unsupported E osVersion then
    (Rejected (BadRequestError
       "balenaOS versions <= 1.2.0 are no longer supported, please update"),
     mkEffects [] [] [])
  else
    let '(apiKeyResult, userKeys, provisioningKeys) :=
      apiKeyPromise E req app osVersion userPromise in
    let '(rootCA, captured) := selfSignedRootPromise E in
    let effects := mkEffects userKeys provisioningKeys captured in
    match userPromise with
    | inr err => (Rejected (Thrown err), effects)
    | inl u =>
        match apiKeyResult with
        | inr err => (Rejected (Thrown err), effects)
        | inl key =>
            match generated E req app slug u key osVersion with
            | inr err => (Rejected (Thrown err), effects)
            | inl config =>
                let config := assign_options req deviceTypeOptions config in
                let config :=
                  match rootCA with
                  | Some ca => set "balenaRootCA" (j_string ca) config
                  | None => config
                  end in
                let config :=
                  match developmentMode osVersion with
                  | Some dev => set "developmentMode" (j_bool dev) config
                  | None => config
                  end in
                (Resolved config, effects)
            end
        end
    end.

End GenerateConfig.

(** A machine for trying [generateConfig]: user 42 is signed in, OS 1.0.0 is
    the one unsupported version and 2.0.0 the one that still takes user
    keys, the certificate file cannot be opened, and [generate] refuses a
    negative poll interval and otherwise returns a configuration that holds
    the key. *)
Definition sample_externals : GenerateConfig.Externals :=
  GenerateConfig.mkExternals Z Z string string
    (fun u => u) (fun a => a)
    (fun _ => inl 42)
    (fun v _ => String.eqb v "1.0.0")
    (fun v _ => String.eqb v "2.0.0")
    (fun _ _ => inl "user-key"%string)
    (fun _ _ _ => inl "provisioning-key"%string)
    (fun d => d)
    (fun _ => Some "EACCES"%string)
    (fun _ => inr "EACCES"%string)
    (fun e => Some e)
    (fun pem => pem)
    (fun v => v)
    "api.local"%string "delta.local"%string "token"%string "registry.local"%string
    "vpn.local"%string (GenerateConfig.j_number 443)
    (Some "/etc/ca.pem"%string)
    (fun o p =>
       match GenerateConfig.appUpdatePollInterval p with
       | GenerateConfig.j_number n =>
           if n <? 0 then inr "appUpdatePollInterval must be positive"%string
           else inl [("apiKey"%string, GenerateConfig.j_string (GenerateConfig.apiKey o));
                     ("wifiSsid"%string, GenerateConfig.j_null)]
       | _ => inl [("apiKey"%string, GenerateConfig.j_string (GenerateConfig.apiKey o));
                   ("wifiSsid"%string, GenerateConfig.j_null)]
       end).

(** A request whose body names the provisioning key and whose parameters
    carry a wifi network. *)
Definition sample_request : GenerateConfig.Request :=
  GenerateConfig.mkRequest
    (fun k => if String.eqb k "provisioningKeyName" then GenerateConfig.j_string "fleet key"
              else GenerateConfig.j_undefined)
    (fun k => if String.eqb k "provisioningKeyName" then GenerateConfig.j_string "ignored"
              else GenerateConfig.j_undefined)
    (fun k => if String.eqb k "wifiSsid" then GenerateConfig.j_string "home"
              else GenerateConfig.j_undefined).

(** A request that asks for a poll interval of minus five minutes. *)
Definition negative_interval_request : GenerateConfig.Request :=
  GenerateConfig.mkRequest
    (fun _ => GenerateConfig.j_undefined)
    (fun _ => GenerateConfig.j_undefined)
    (fun k => if String.eqb k "appUpdatePollInterval" then GenerateConfig.j_number (-5)
              else GenerateConfig.j_undefined).

(** The options of a device type: a plain option, the network group and a
    group of its own. *)
Definition sample_options : list GenerateConfig.DeviceTypeOption :=
  [ GenerateConfig.mkOption "persistentLogging" None [];
    GenerateConfig.mkOption "network" (Some true)
      [GenerateConfig.mkOption "wifiSsid" None []];
    GenerateConfig.mkOption "storage" (Some true)
      [GenerateConfig.mkOption "disk" None []] ].

(** ** Lemmas on the store monad *)

Lemma with_service_install_same (s : Store) :
  with_service_install s (service_install s) = s.
Proof. destruct s; reflexivity. Qed.

Lemma with_service_install_twice (s : Store) (r1 r2 : list ServiceInstall.t) :
  with_service_install (with_service_install s r1) r2 = with_service_install s r2.
Proof. reflexivity. Qed.

Lemma same_tables_refl (s : Store) : same_tables s s.
Proof. repeat split. Qed.

Lemma same_tables_with (s : Store) (rows : list ServiceInstall.t) :
  same_tables s (with_service_install s rows).
Proof. repeat split. Qed.

Lemma same_tables_trans (s1 s2 s3 : Store) :
  same_tables s1 s2 -> same_tables s2 s3 -> same_tables s1 s3.
Proof.
  unfold same_tables. intros (a1 & a2 & a3 & a4 & a5 & a6) (b1 & b2 & b3 & b4 & b5 & b6).
  repeat split; congruence.
Qed.

Lemma bind_run {A B} (m : M A) (k : A -> M B) (s : Store) :
  bind m k s =
  (result (k (result (m s)) (store_of (m s))),
   store_of (k (result (m s)) (store_of (m s))),
   calls (m s) ++ calls (k (result (m s)) (store_of (m s)))).
Proof.
  unfold bind, result, store_of, calls.
  destruct (m s) as [[a s1] c1]. simpl.
  destruct (k a s1) as [[b s2] c2]. reflexivity.
Qed.

(** A loop whose bodies each post a list of rows fixed in advance. *)
Lemma forM_rows (api : PinejsClient) {A} (f : A -> M unit) (g : A -> list ServiceInstall.t)
    (xs : list A) :
  (forall x s, f x s =
     (tt, with_service_install s (service_install s ++ g x), map (Post api) (g x))) ->
  forall s, forM_ xs f s =
     (tt, with_service_install s (service_install s ++ flat_map g xs),
      map (Post api) (flat_map g xs)).
Proof.
  intros Hf. induction xs as [|x xs IH]; intros s; simpl.
  - rewrite app_nil_r, with_service_install_same. reflexivity.
  - rewrite bind_run, Hf. unfold result, store_of, calls. cbn [fst snd].
    rewrite IH. cbn [fst snd]. rewrite with_service_install_twice.
    cbn [service_install with_service_install].
    rewrite <- app_assoc, map_app. reflexivity.
Qed.

(** Posting a list of rows one after the other. *)
Lemma forM_post (api : PinejsClient) {A} (g : A -> ServiceInstall.t) (xs : list A) (s : Store) :
  forM_ xs (fun x => post_service_install api (g x)) s =
  (tt, with_service_install s (service_install s ++ map g xs), map (Post api) (map g xs)).
Proof.
  rewrite (forM_rows api _ (fun x => [g x])); [|reflexivity].
  replace (flat_map (fun x => [g x]) xs) with (map g xs).
  - reflexivity.
  - induction xs; simpl; congruence.
Qed.

(** ** Lemmas on the lodash functions *)

Lemma mem_In (x : Z) (l : list Z) : mem x l = true <-> In x l.
Proof.
  unfold mem. rewrite existsb_exists. split.
  - intros (y & Hy & E). apply Z.eqb_eq in E. subst. exact Hy.
  - intros H. exists x. split; [exact H | apply Z.eqb_refl].
Qed.

Lemma mem_false (x : Z) (l : list Z) : mem x l = false <-> ~ In x l.
Proof.
  rewrite <- mem_In. destruct (mem x l); split; intro H; congruence.
Qed.

Lemma difference_In (x : Z) (xs ys : list Z) :
  In x (difference xs ys) <-> In x xs /\ ~ In x ys.
Proof.
  unfold difference. rewrite filter_In, negb_true_iff, mem_false. reflexivity.
Qed.

Lemma difference_nil (xs ys : list Z) :
  (forall x, In x xs -> In x ys) -> difference xs ys = [].
Proof.
  intros H. destruct (difference xs ys) as [|x l] eqn:E; [reflexivity|].
  assert (Hx : In x (difference xs ys)) by (rewrite E; left; reflexivity).
  apply difference_In in Hx. destruct Hx as [Hx Hn]. elim Hn. auto.
Qed.

Lemma lookup_above {A} (k : Z) (g : list (Z * list A)) :
  Forall (Z.lt k) (map fst g) -> lookup k g = [].
Proof.
  induction g as [|[k' xs] g IH]; simpl; intros H; [reflexivity|].
  inversion H; subst. destruct (Z.eqb_spec k k'); [lia | auto].
Qed.

Lemma group_insert_keys {A} (k : Z) (x : A) (g : list (Z * list A)) (k0 : Z) :
  In k0 (map fst (group_insert k x g)) <-> k0 = k \/ In k0 (map fst g).
Proof.
  induction g as [|[k' xs] g IH]; simpl.
  - intuition.
  - destruct (Z.eqb_spec k k'); simpl.
    + subst. intuition.
    + destruct (k <? k'); simpl; [intuition|]. rewrite IH. intuition.
Qed.

Lemma group_insert_sorted {A} (k : Z) (x : A) (g : list (Z * list A)) :
  keys_sorted g -> keys_sorted (group_insert k x g).
Proof.
  unfold keys_sorted. induction g as [|[k' xs] g IH]; simpl; intros H.
  - repeat constructor.
  - inversion H as [|? ? Hs Hf]; subst.
    destruct (Z.eqb_spec k k'); simpl.
    + constructor; assumption.
    + destruct (Z.ltb_spec k k'); simpl.
      * constructor; [exact H|]. constructor; [assumption|].
        eapply Forall_impl; [|exact Hf]. simpl. intros; lia.
      * constructor; [auto|]. apply Forall_forall. intros k0 Hk0.
        apply group_insert_keys in Hk0. destruct Hk0 as [->|Hk0]; [lia|].
        rewrite Forall_forall in Hf. auto.
Qed.

Lemma group_insert_lookup {A} (k k1 : Z) (x : A) (g : list (Z * list A)) :
  keys_sorted g ->
  lookup k (group_insert k1 x g) =
  if k =? k1 then lookup k g ++ [x] else lookup k g.
Proof.
  unfold keys_sorted. induction g as [|[k' xs] g IH]; simpl; intros H.
  - destruct (k =? k1); reflexivity.
  - inversion H as [|? ? Hs Hf]; subst.
    destruct (Z.eqb_spec k1 k'); simpl.
    + subst. destruct (Z.eqb_spec k k'); reflexivity.
    + destruct (Z.ltb_spec k1 k'); simpl.
      * destruct (Z.eqb_spec k k1); [|reflexivity].
        subst. destruct (Z.eqb_spec k1 k'); [lia|].
        rewrite lookup_above; [reflexivity|].
        eapply Forall_impl; [|exact Hf]. simpl. intros; lia.
      * destruct (Z.eqb_spec k k').
        -- subst. destruct (Z.eqb_spec k' k1); [congruence | reflexivity].
        -- apply IH. assumption.
Qed.

Lemma groupBy_fold {A} (key : A -> Z) (xs : list A) (g : list (Z * list A)) :
  keys_sorted g ->
  let g' := fold_left (fun g x => group_insert (key x) x g) xs g in
  keys_sorted g' /\
  (forall k, lookup k g' = lookup k g ++ filter (fun x => k =? key x) xs) /\
  (forall k, In k (map fst g') <-> In k (map fst g) \/ In k (map key xs)).
Proof.
  revert g. induction xs as [|x xs IH]; simpl; intros g Hg.
  - split; [exact Hg|]. split; intros k; [rewrite app_nil_r; reflexivity | intuition].
  - destruct (IH (group_insert (key x) x g) (group_insert_sorted _ _ _ Hg)) as (S1 & L1 & K1).
    split; [exact S1|]. split; intros k.
    + rewrite L1, group_insert_lookup by exact Hg.
      destruct (k =? key x); [rewrite <- app_assoc|]; reflexivity.
    + rewrite K1, group_insert_keys. intuition.
Qed.

Lemma groupBy_lookup {A} (key : A -> Z) (xs : list A) (k : Z) :
  lookup k (groupBy key xs) = filter (fun x => k =? key x) xs.
Proof.
  unfold groupBy.
  destruct (groupBy_fold key xs [] (SSorted_nil _)) as (_ & L & _). apply L.
Qed.

Lemma groupBy_keys {A} (key : A -> Z) (xs : list A) (k : Z) :
  In k (map fst (groupBy key xs)) <-> In k (map key xs).
Proof.
  unfold groupBy.
  destruct (groupBy_fold key xs [] (SSorted_nil _)) as (_ & _ & K).
  rewrite K. simpl. intuition.
Qed.

(** ** One run of the reconciler *)

Lemma is_empty_map {A B} (f : A -> B) (l : list A) : is_empty (map f l) = is_empty l.
Proof. destruct l; reflexivity. Qed.

Lemma flat_map_nil {A B} (g : A -> list B) (xs : list A) :
  (forall x, g x = []) -> flat_map g xs = [].
Proof. intros H. induction xs; simpl; [|rewrite H, IHxs]; reflexivity. Qed.

Lemma bind_read {A B} (m : M A) (k : A -> M B) (s : Store) (a : A) (c : list Call) :
  m s = (a, s, c) ->
  bind m k s = (result (k a s), store_of (k a s), c ++ calls (k a s)).
Proof. intros H. rewrite bind_run, H. reflexivity. Qed.

(** One run of the reconciler: its reads, then one post per missing row. *)
Lemma createReleaseServiceInstalls_run (api : PinejsClient) (sel : DeviceSelector)
    (rf : Filter) (s : Store) :
  createReleaseServiceInstalls api sel rf s =
  (tt, with_service_install s (service_install s ++ missing s sel rf),
   reads api s sel rf ++ map (Post api) (missing s sel rf)).
Proof.
  assert (Hloop : forall ids serviceIds byDevice s0,
    forM_ ids (fun deviceId =>
      forM_ (difference serviceIds
               (map ServiceInstall.installs__service (lookup deviceId byDevice)))
            (fun serviceId => post_service_install api (ServiceInstall.mk deviceId serviceId))) s0 =
    (tt, with_service_install s0 (service_install s0 ++
           flat_map (fun deviceId => map (ServiceInstall.mk deviceId)
             (difference serviceIds
               (map ServiceInstall.installs__service (lookup deviceId byDevice)))) ids),
     map (Post api) (flat_map (fun deviceId => map (ServiceInstall.mk deviceId)
             (difference serviceIds
               (map ServiceInstall.installs__service (lookup deviceId byDevice)))) ids))).
  { intros ids serviceIds byDevice s0.
    apply (forM_rows api _ (fun deviceId => map (ServiceInstall.mk deviceId)
             (difference serviceIds
               (map ServiceInstall.installs__service (lookup deviceId byDevice))))).
    intros x s1. apply forM_post. }
  unfold createReleaseServiceInstalls, missing, reads, release_service_ids.
  destruct sel as [ids|f].
  - destruct ids as [|i ids]; [simpl; rewrite app_nil_r, with_service_install_same; reflexivity|].
    cbn [length_is_zero resolved_ids].
    rewrite (bind_read _ _ s (i :: ids) [] eq_refl).
    rewrite (bind_read _ _ s _ _ eq_refl).
    rewrite is_empty_map.
    destruct (filter (service_of_release s rf) (service s)) as [|sv svs] eqn:E.
    + cbn [map]. rewrite flat_map_nil by reflexivity.
      simpl. rewrite app_nil_r, with_service_install_same. reflexivity.
    + rewrite (bind_read _ _ s _ _ eq_refl).
      rewrite Hloop. reflexivity.
  - cbn [length_is_zero resolved_ids].
    rewrite (bind_read _ _ s (map Device.id (filter (eval_filter f) (device s))) [Get api r_device]).
    2:{ rewrite (bind_read _ _ s _ _ eq_refl). reflexivity. }
    rewrite (bind_read _ _ s _ _ eq_refl).
    rewrite is_empty_map.
    destruct (filter (service_of_release s rf) (service s)) as [|sv svs] eqn:E.
    + cbn [map]. rewrite flat_map_nil by reflexivity.
      simpl. rewrite app_nil_r, with_service_install_same. reflexivity.
    + rewrite (bind_read _ _ s _ _ eq_refl).
      rewrite Hloop. reflexivity.
Qed.

(** ** The rows a run posts *)

Lemma install_eta (si : ServiceInstall.t) :
  ServiceInstall.mk (ServiceInstall.device si) (ServiceInstall.installs__service si) = si.
Proof. destruct si; reflexivity. Qed.

Lemma resolved_ids_matches (s : Store) (sel : DeviceSelector) (i sv : Z) :
  In i (resolved_ids s sel) ->
  install_device_matches s sel (ServiceInstall.mk i sv) = true.
Proof.
  destruct sel as [ids|f]; simpl.
  - apply mem_In.
  - rewrite in_map_iff. intros (d & Hd & Hin). apply filter_In in Hin.
    apply existsb_exists. exists d. destruct Hin as [Hin Hf].
    split; [exact Hin|]. rewrite Hf, Hd, Z.eqb_refl. reflexivity.
Qed.

(** Among the rows read as installed, those of device [i]. *)
Lemma existing_In (s : Store) (sel : DeviceSelector) (serviceIds : list Z) (i sv : Z) :
  In sv (map ServiceInstall.installs__service
           (lookup i (groupBy ServiceInstall.device (installed s sel serviceIds)))) <->
  In (ServiceInstall.mk i sv) (installed s sel serviceIds).
Proof.
  rewrite groupBy_lookup, in_map_iff. split.
  - intros (si & E & Hin). apply filter_In in Hin. destruct Hin as [Hin Hk].
    apply Z.eqb_eq in Hk. subst. rewrite install_eta. exact Hin.
  - intros Hin. exists (ServiceInstall.mk i sv). split; [reflexivity|].
    apply filter_In. split; [exact Hin | apply Z.eqb_refl].
Qed.

(** Every posted row pairs a resolved device with a service of the release,
    and was not in the table. *)
Lemma missing_sound (s : Store) (sel : DeviceSelector) (rf : Filter) (row : ServiceInstall.t) :
  In row (missing s sel rf) ->
  In (ServiceInstall.device row) (resolved_ids s sel) /\
  In (ServiceInstall.installs__service row) (release_service_ids s rf) /\
  ~ In row (service_install s).
Proof.
  unfold missing. destruct (length_is_zero sel); [intros []|].
  rewrite in_flat_map. intros (i & Hi & Hrow).
  apply in_map_iff in Hrow. destruct Hrow as (sv & <- & Hsv).
  apply difference_In in Hsv. destruct Hsv as [Hsv Hnot]. simpl.
  split; [exact Hi|]. split; [exact Hsv|].
  intros Hin. apply Hnot. apply existing_In. unfold installed.
  apply filter_In. split; [exact Hin|].
  rewrite resolved_ids_matches by exact Hi. simpl. apply mem_In. exact Hsv.
Qed.

(** After the posts every resolved device has a row for every service of the
    release. *)
Lemma missing_complete (s : Store) (sel : DeviceSelector) (rf : Filter) (i sv : Z) :
  length_is_zero sel = false ->
  In i (resolved_ids s sel) ->
  In sv (release_service_ids s rf) ->
  In (ServiceInstall.mk i sv) (service_install s ++ missing s sel rf).
Proof.
  intros Hz Hi Hsv. apply in_or_app.
  destruct (in_dec Z.eq_dec sv
    (map ServiceInstall.installs__service
       (lookup i (groupBy ServiceInstall.device
                    (installed s sel (release_service_ids s rf)))))) as [Hex|Hex].
  - left. apply existing_In in Hex. unfold installed in Hex.
    apply filter_In in Hex. tauto.
  - right. unfold missing. rewrite Hz. apply in_flat_map. exists i.
    split; [exact Hi|]. apply in_map. apply difference_In. split; assumption.
Qed.

Lemma service_of_release_same (s s' : Store) (rf : Filter) (sv : Service.t) :
  same_tables s s' -> service_of_release s' rf sv = service_of_release s rf sv.
Proof.
  intros (_ & Ha & Hr & Hi & Hp & _). unfold service_of_release, eval_release_filter.
  rewrite Ha, Hr, Hi, Hp. reflexivity.
Qed.

Lemma release_service_ids_same (s s' : Store) (rf : Filter) :
  same_tables s s' -> release_service_ids s' rf = release_service_ids s rf.
Proof.
  intros H. unfold release_service_ids.
  destruct H as (Hd & Ha & Hr & Hi & Hp & Hs). rewrite Hs. f_equal.
  apply filter_ext. intros sv. apply service_of_release_same. repeat split; assumption.
Qed.

Lemma resolved_ids_same (s s' : Store) (sel : DeviceSelector) :
  same_tables s s' -> resolved_ids s' sel = resolved_ids s sel.
Proof. intros (Hd & _). destruct sel; simpl; [|rewrite Hd]; reflexivity. Qed.

Lemma flat_map_nil_in {A B} (g : A -> list B) (xs : list A) :
  (forall x, In x xs -> g x = []) -> flat_map g xs = [].
Proof.
  induction xs as [|x xs IH]; simpl; intros H; [reflexivity|].
  rewrite H, IH; auto.
Qed.

(** Nothing is missing once every pair has a row. *)
Lemma missing_nil (s : Store) (sel : DeviceSelector) (rf : Filter) :
  (forall i sv, In i (resolved_ids s sel) -> In sv (release_service_ids s rf) ->
                In (ServiceInstall.mk i sv) (service_install s)) ->
  missing s sel rf = [].
Proof.
  intros H. unfold missing. destruct (length_is_zero sel); [reflexivity|].
  apply flat_map_nil_in. intros i Hi.
  rewrite difference_nil; [reflexivity|].
  intros sv Hsv. apply existing_In. unfold installed. apply filter_In.
  split; [auto|].
  rewrite resolved_ids_matches by exact Hi. simpl. apply mem_In. exact Hsv.
Qed.

(** The store and the calls of one run. *)
Lemma create_store (api : PinejsClient) (sel : DeviceSelector) (rf : Filter) (s : Store) :
  store_of (createReleaseServiceInstalls api sel rf s) =
  with_service_install s (service_install s ++ missing s sel rf).
Proof. rewrite createReleaseServiceInstalls_run. reflexivity. Qed.

Lemma create_calls (api : PinejsClient) (sel : DeviceSelector) (rf : Filter) (s : Store) :
  calls (createReleaseServiceInstalls api sel rf s) =
  reads api s sel rf ++ map (Post api) (missing s sel rf).
Proof. rewrite createReleaseServiceInstalls_run. reflexivity. Qed.

Lemma reads_are_gets (api : PinejsClient) (s : Store) (sel : DeviceSelector) (rf : Filter)
    (c : Call) :
  In c (reads api s sel rf) ->
  call_api c = api /\ is_post c = false /\ is_delete c = false.
Proof.
  unfold reads. intros H. apply in_app_or in H. destruct H as [H|H].
  - destruct sel; simpl in H; [contradiction|]. destruct H as [<-|[]]. auto.
  - destruct (length_is_zero sel); [contradiction|].
    destruct H as [<-|H]; [auto|].
    destruct (is_empty _); [contradiction|]. destruct H as [<-|[]]. auto.
Qed.

Lemma createReleaseServiceInstalls_additive (api : PinejsClient) (sel : DeviceSelector)
    (rf : Filter) :
  additive (createReleaseServiceInstalls api sel rf).
Proof.
  intros s. rewrite create_store, create_calls. split; [apply same_tables_with|].
  split; [exists (missing s sel rf); reflexivity|].
  intros c Hc. apply in_app_or in Hc. destruct Hc as [Hc|Hc].
  - apply reads_are_gets in Hc. tauto.
  - apply in_map_iff in Hc. destruct Hc as (row & <- & _). reflexivity.
Qed.

(** ** Hooks that only post *)

Lemma additive_ret {A} (a : A) : additive (ret a).
Proof.
  intros s. split; [apply same_tables_refl|]. split.
  - exists []. simpl. rewrite app_nil_r. reflexivity.
  - intros c [].
Qed.

Lemma bind_store {A B} (m : M A) (k : A -> M B) (s : Store) :
  store_of (bind m k s) = store_of (k (result (m s)) (store_of (m s))).
Proof. rewrite bind_run. reflexivity. Qed.

Lemma bind_calls {A B} (m : M A) (k : A -> M B) (s : Store) :
  calls (bind m k s) = calls (m s) ++ calls (k (result (m s)) (store_of (m s))).
Proof. rewrite bind_run. reflexivity. Qed.

Lemma additive_bind {A B} (m : M A) (k : A -> M B) :
  additive m -> (forall a, additive (k a)) -> additive (bind m k).
Proof.
  intros Hm Hk s. rewrite bind_store, bind_calls.
  destruct (Hm s) as (T1 & (a1 & E1) & D1).
  destruct (Hk (result (m s)) (store_of (m s))) as (T2 & (a2 & E2) & D2).
  split; [eapply same_tables_trans; eassumption|]. split.
  - exists (a1 ++ a2). rewrite E2, E1, app_assoc. reflexivity.
  - intros c Hc. apply in_app_or in Hc. destruct Hc; auto.
Qed.

Lemma additive_get_device (api : PinejsClient) (f : FilterObj) : additive (get_device api f).
Proof.
  intros s. split; [apply same_tables_refl|]. split.
  - exists []. simpl. rewrite app_nil_r. reflexivity.
  - intros c [<-|[]]. reflexivity.
Qed.

Lemma additive_forM_ {A} (f : A -> M unit) (xs : list A) :
  (forall x, additive (f x)) -> additive (forM_ xs f).
Proof.
  intros Hf. induction xs as [|x xs IH]; simpl.
  - apply additive_ret.
  - apply additive_bind; auto.
Qed.

Lemma PATCH_application_POSTRUN_additive (api : PinejsClient) (request : Request) :
  additive (PATCH_application_POSTRUN api request).
Proof.
  unfold PATCH_application_POSTRUN.
  destruct (Values.should_be_running__release (values request)); try apply additive_ret.
  destruct (negb _); [apply createReleaseServiceInstalls_additive | apply additive_ret].
Qed.

Lemma POST_device_POSTRUN_additive (api : PinejsClient) (tx : Z) (request : Request)
    (result : option Z) :
  additive (POST_device_POSTRUN api tx request result).
Proof.
  unfold POST_device_POSTRUN, createAppServiceInstalls.
  destruct result; [|apply additive_ret].
  destruct (Values.belongs_to__application (values request)); try apply additive_ret.
  apply createReleaseServiceInstalls_additive.
Qed.

Lemma PATCH_device_POSTRUN_additive (api : PinejsClient) (request : Request) :
  additive (PATCH_device_POSTRUN api request).
Proof.
  unfold PATCH_device_POSTRUN, createAppServiceInstalls.
  destruct (Values.should_be_running__release (values request)); try apply additive_ret;
    (destruct (negb _); [|apply additive_ret]).
  - apply additive_bind; [apply additive_get_device|]. intros devices.
    apply additive_forM_. intros appId.
    destruct (lookup appId _); [apply additive_ret | apply createReleaseServiceInstalls_additive].
  - apply createReleaseServiceInstalls_additive.
Qed.

Lemma POST_device_POSTRUN_supervisor_additive (api : PinejsClient) (tx : Z)
    (request : Request) (result : option Z) :
  additive (POST_device_POSTRUN_supervisor api tx request result).
Proof.
  unfold POST_device_POSTRUN_supervisor.
  destruct result; [|apply additive_ret].
  destruct (Values.should_be_managed_by__release (values request)); try apply additive_ret.
  apply createReleaseServiceInstalls_additive.
Qed.

Lemma PATCH_device_POSTRUN_supervisor_additive (api : PinejsClient) (request : Request) :
  additive (PATCH_device_POSTRUN_supervisor api request).
Proof.
  unfold PATCH_device_POSTRUN_supervisor.
  destruct (Values.should_be_managed_by__release (values request)); try apply additive_ret.
  destruct (negb _); [apply createReleaseServiceInstalls_additive | apply additive_ret].
Qed.

Lemma additive_keeps {A} (m : M A) (s : Store) (row : ServiceInstall.t) :
  additive m -> In row (service_install s) -> In row (service_install (store_of (m s))).
Proof.
  intros H Hin. destruct (H s) as (_ & (added & E) & _). rewrite E.
  apply in_or_app. left. exact Hin.
Qed.

(** ** Idempotence *)

(** C2. [createReleaseServiceInstalls] is idempotent: a second run with the
    same device selector and release filter, started from the store the first
    run left, issues no post and leaves the [service_install] rows as the
    first run left them; and a run never posts a (device, service) pair that
    already has a row, the posted services being the set difference of the
    release's service ids and the device's installed service ids. *)
Theorem createReleaseServiceInstalls_idempotent (api : PinejsClient)
    (sel : DeviceSelector) (rf : Filter) (s : Store) :
  let first := createReleaseServiceInstalls api sel rf s in
  let second := createReleaseServiceInstalls api sel rf (store_of first) in
  store_of second = store_of first /\
  service_install (store_of second) = service_install (store_of first) /\
  (forall c, In c (calls second) -> is_post c = false) /\
  (forall a body, In (Post a body) (calls first) -> ~ In body (service_install s)) /\
  (forall a i sv, In (Post a (ServiceInstall.mk i sv)) (calls first) <->
     a = api /\ length_is_zero sel = false /\ In i (resolved_ids s sel) /\
     In sv (difference (release_service_ids s rf)
              (map ServiceInstall.installs__service
                 (filter (fun si => i =? ServiceInstall.device si)
                    (installed s sel (release_service_ids s rf)))))).
Proof.
  cbv zeta.
  assert (Hnil : missing (store_of (createReleaseServiceInstalls api sel rf s)) sel rf = []).
  { rewrite create_store. apply missing_nil. intros i sv Hi Hsv.
    rewrite (resolved_ids_same s) in Hi by apply same_tables_with.
    rewrite (release_service_ids_same s) in Hsv by apply same_tables_with.
    simpl. destruct (length_is_zero sel) eqn:Hz.
    - destruct sel as [[|]|]; simpl in *; try discriminate. contradiction.
    - apply missing_complete; assumption. }
  assert (Hsame : store_of (createReleaseServiceInstalls api sel rf
                     (store_of (createReleaseServiceInstalls api sel rf s))) =
                  store_of (createReleaseServiceInstalls api sel rf s)).
  { rewrite (create_store api sel rf (store_of _)), Hnil, app_nil_r.
    apply with_service_install_same. }
  split; [exact Hsame|]. split; [rewrite Hsame; reflexivity|]. split; [|split].
  - intros c Hc. rewrite create_calls, Hnil, app_nil_r in Hc.
    apply reads_are_gets in Hc. tauto.
  - intros a body Hc. rewrite create_calls in Hc. apply in_app_or in Hc.
    destruct Hc as [Hc|Hc].
    + apply reads_are_gets in Hc. simpl in Hc. destruct Hc as (_ & Hc & _). discriminate.
    + apply in_map_iff in Hc. destruct Hc as (row & E & Hrow). inversion E; subst.
      apply missing_sound in Hrow. tauto.
  - intros a i sv. rewrite create_calls, in_app_iff. split.
    + intros [Hc|Hc].
      * apply reads_are_gets in Hc. simpl in Hc. destruct Hc as (_ & Hc & _). discriminate.
      * apply in_map_iff in Hc. destruct Hc as (row & E & Hrow). inversion E; subst.
        unfold missing in Hrow. destruct (length_is_zero sel); [contradiction|].
        apply in_flat_map in Hrow. destruct Hrow as (i' & Hi' & Hrow).
        apply in_map_iff in Hrow. destruct Hrow as (sv' & E' & Hsv'). inversion E'; subst.
        rewrite groupBy_lookup in Hsv'. auto.
    + intros (-> & Hz & Hi & Hsv). right. apply in_map. unfold missing. rewrite Hz.
      apply in_flat_map. exists i. split; [exact Hi|]. apply in_map.
      rewrite groupBy_lookup. exact Hsv.
Qed.

(** ** What the reconciler leaves alone, and when it returns early *)

(** C4. Outside the migration purge nothing deletes a [service_install] row:
    [createReleaseServiceInstalls] and every hook other than the PRERUN of
    PATCH device only read and post, so the rows present before are still
    there afterwards, in place, and no delete is issued; in particular the
    rows of a device survive the pinning of a supervisor release on its
    creation and on its update. *)
Theorem only_the_purge_deletes :
  (forall api sel rf, additive (createReleaseServiceInstalls api sel rf)) /\
  (forall api appId deviceIds, additive (createAppServiceInstalls api appId deviceIds)) /\
  (forall api request, additive (PATCH_application_POSTRUN api request)) /\
  (forall api tx request result, additive (POST_device_POSTRUN api tx request result)) /\
  (forall api request, additive (PATCH_device_POSTRUN api request)) /\
  (forall api tx request result,
      additive (POST_device_POSTRUN_supervisor api tx request result)) /\
  (forall api request, additive (PATCH_device_POSTRUN_supervisor api request)) /\
  (forall api tx request result s row,
      In row (service_install s) ->
      In row (service_install
                (store_of (POST_device_POSTRUN_supervisor api tx request result s)))) /\
  (forall api request s row,
      In row (service_install s) ->
      In row (service_install
                (store_of (PATCH_device_POSTRUN_supervisor api request s)))).
Proof.
  split; [exact createReleaseServiceInstalls_additive|].
  split; [intros; apply createReleaseServiceInstalls_additive|].
  split; [exact PATCH_application_POSTRUN_additive|].
  split; [exact POST_device_POSTRUN_additive|].
  split; [exact PATCH_device_POSTRUN_additive|].
  split; [exact POST_device_POSTRUN_supervisor_additive|].
  split; [exact PATCH_device_POSTRUN_supervisor_additive|].
  split; intros.
  - apply additive_keeps; [apply POST_device_POSTRUN_supervisor_additive | assumption].
  - apply additive_keeps; [apply PATCH_device_POSTRUN_supervisor_additive | assumption].
Qed.

(** C8. With an empty array of device ids [createReleaseServiceInstalls]
    returns at once: no call is issued and the store is unchanged.  When the
    release filter resolves to no service it returns after the service read:
    the [service_install] rows are not read, nothing is posted and the store
    is unchanged. *)
Theorem createReleaseServiceInstalls_short_circuits :
  (forall api rf s,
      createReleaseServiceInstalls api (Ids []) rf s = (tt, s, [])) /\
  (forall api sel rf s,
      release_service_ids s rf = [] ->
      let r := createReleaseServiceInstalls api sel rf s in
      store_of r = s /\
      (forall c, In c (calls r) -> is_get r_service_install c = false /\
                                   is_post c = false /\ is_delete c = false)).
Proof.
  split.
  - intros. reflexivity.
  - intros api sel rf s Hnone. cbv zeta.
    assert (Hm : missing s sel rf = []).
    { apply missing_nil. intros i sv _ Hsv. rewrite Hnone in Hsv. contradiction. }
    rewrite create_store, create_calls, Hm. simpl map. rewrite !app_nil_r. split.
    + apply with_service_install_same.
    + intros c Hc. unfold reads in Hc. rewrite Hnone in Hc. simpl in Hc.
      apply in_app_or in Hc. destruct Hc as [Hc|Hc].
      * destruct sel; simpl in Hc; [contradiction|]. destruct Hc as [<-|[]]. auto.
      * destruct (length_is_zero sel); simpl in Hc; [contradiction|].
        destruct Hc as [<-|[]]. auto.
Qed.

Lemma createReleaseServiceInstalls_short_circuits_witness :
  release_service_ids fleet (release_id 5) = [] /\
  store_of (createReleaseServiceInstalls user_api (Ids [10; 11]) (release_id 5) fleet) = fleet /\
  calls (createReleaseServiceInstalls user_api (Ids [10; 11]) (release_id 5) fleet) =
    [Get user_api r_service].
Proof.
  split; [reflexivity|].
  split.
  - apply (proj2 createReleaseServiceInstalls_short_circuits
             user_api (Ids [10; 11]) (release_id 5) fleet eq_refl).
  - reflexivity.
Defined.

(** C9, as stated, fails: with a filter object that matches no device and a
    release that has no service, the [service_install] rows are not read. *)
Lemma filter_object_install_read_counterexample :
  resolved_ids empty_store (Obj [id_in [99]]) = [] /\
  ~ In (Get user_api r_service_install)
       (calls (createReleaseServiceInstalls user_api (Obj [id_in [99]]) (release_id 5)
                 empty_store)).
Proof.
  split; [reflexivity|]. simpl. intros [H|[H|[]]]; discriminate.
Qed.

(** C9, amended. With a filter object as device selector the length test
    never returns early: the device read and the service read are always
    issued.  When the filter matches no device, the run issues the device
    read, the service read and, if the release has at least one service,
    the [service_install] read, in that order, and nothing else: no row is
    posted and the store is unchanged. *)
Theorem filter_object_never_short_circuits (api : PinejsClient) (f : FilterObj)
    (rf : Filter) (s : Store) :
  length_is_zero (Obj f) = false /\
  (exists rest, calls (createReleaseServiceInstalls api (Obj f) rf s) =
                Get api r_device :: Get api r_service :: rest) /\
  (resolved_ids s (Obj f) = [] ->
   store_of (createReleaseServiceInstalls api (Obj f) rf s) = s /\
   calls (createReleaseServiceInstalls api (Obj f) rf s) =
     Get api r_device :: Get api r_service ::
     (if is_empty (release_service_ids s rf) then [] else [Get api r_service_install])).
Proof.
  split; [reflexivity|]. rewrite create_store, create_calls. split.
  - unfold reads. simpl. eexists. reflexivity.
  - intros Hnone. unfold missing. rewrite Hnone. simpl.
    rewrite !app_nil_r. split; [apply with_service_install_same | reflexivity].
Qed.

Lemma filter_object_never_short_circuits_witness :
  resolved_ids fleet (Obj [id_in [99]]) = [] /\
  calls (createReleaseServiceInstalls user_api (Obj [id_in [99]]) (release_id 9) fleet) =
    [Get user_api r_device; Get user_api r_service; Get user_api r_service_install].
Proof.
  split; [reflexivity|].
  apply (proj2 (proj2 (proj2 (filter_object_never_short_circuits
                  user_api [id_in [99]] (release_id 9) fleet)) eq_refl)).
Defined.

(** ** Application pins *)

(** The selector the application hook passes to the reconciler. *)
Lemma unpinned_of_applications (affected : list Z) (d : Device.t) :
  eval_filter [belongs_to__application_in affected; should_be_running__release_null] d = true <->
  In (Device.belongs_to__application d) affected /\
  Device.should_be_running__release d = None.
Proof.
  simpl. rewrite andb_true_r, andb_true_iff, mem_In.
  destruct (Device.should_be_running__release d); simpl; intuition congruence.
Qed.

Lemma filter_app (A : Type) (p : A -> bool) (l1 l2 : list A) :
  filter p (l1 ++ l2) = filter p l1 ++ filter p l2.
Proof. induction l1; simpl; [|destruct (p a); simpl; rewrite IHl1]; reflexivity. Qed.

Lemma filter_none {A} (p : A -> bool) (l : list A) :
  (forall x, In x l -> p x = false) -> filter p l = [].
Proof.
  induction l as [|x l IH]; simpl; intros H; [reflexivity|].
  rewrite H by auto. apply IH. auto.
Qed.

(** C1. When an application's release pin is set (non-null pin, at least one
    affected application), the reconciliation the hook triggers selects
    exactly the devices that belong to an affected application and have no
    device-level pin; it posts rows for such devices only and deletes
    nothing, so the [service_install] rows of a device whose own pin is
    non-null are the same before and after. *)
Theorem application_pin_spares_pinned_devices (api : PinejsClient) (request : Request)
    (s : Store) (pin : Z) :
  Values.should_be_running__release (values request) = number pin ->
  affectedIds request <> [] ->
  let selector := [belongs_to__application_in (affectedIds request);
                   should_be_running__release_null] in
  let r := PATCH_application_POSTRUN api request s in
  r = createReleaseServiceInstalls api (Obj selector) (release_id pin) s /\
  (forall d, eval_filter selector d = true <->
             In (Device.belongs_to__application d) (affectedIds request) /\
             Device.should_be_running__release d = None) /\
  (exists added,
      service_install (store_of r) = service_install s ++ added /\
      forall row, In row added ->
        exists d, In d (device s) /\ Device.id d = ServiceInstall.device row /\
                  In (Device.belongs_to__application d) (affectedIds request) /\
                  Device.should_be_running__release d = None) /\
  (forall c, In c (calls r) -> is_delete c = false) /\
  (forall i,
      (forall d, In d (device s) -> Device.id d = i ->
                 Device.should_be_running__release d <> None) ->
      filter (fun row => ServiceInstall.device row =? i) (service_install (store_of r)) =
      filter (fun row => ServiceInstall.device row =? i) (service_install s) /\
      forall a body, In (Post a body) (calls r) -> ServiceInstall.device body <> i).
Proof.
  intros Hpin Haff selector r.
  assert (Hr : r = createReleaseServiceInstalls api (Obj selector) (release_id pin) s).
  { unfold r, PATCH_application_POSTRUN. rewrite Hpin.
    destruct (affectedIds request); [congruence | reflexivity]. }
  assert (Hrow : forall row, In row (missing s (Obj selector) (release_id pin)) ->
            exists d, In d (device s) /\ Device.id d = ServiceInstall.device row /\
                      In (Device.belongs_to__application d) (affectedIds request) /\
                      Device.should_be_running__release d = None).
  { intros row Hin. apply missing_sound in Hin. destruct Hin as (Hd & _).
    simpl in Hd. apply in_map_iff in Hd. destruct Hd as (d & E & Hd).
    apply filter_In in Hd. destruct Hd as [Hd Hf].
    apply unpinned_of_applications in Hf. exists d. tauto. }
  split; [exact Hr|]. split; [apply unpinned_of_applications|].
  rewrite Hr, create_store, create_calls. split; [|split].
  - exists (missing s (Obj selector) (release_id pin)). split; [reflexivity | exact Hrow].
  - intros c Hc. apply in_app_or in Hc. destruct Hc as [Hc|Hc].
    + apply reads_are_gets in Hc. tauto.
    + apply in_map_iff in Hc. destruct Hc as (row & <- & _). reflexivity.
  - intros i Hi.
    assert (Hnot : forall row, In row (missing s (Obj selector) (release_id pin)) ->
                               ServiceInstall.device row <> i).
    { intros row Hin E. destruct (Hrow row Hin) as (d & Hd & Hid & _ & Hnone).
      apply (Hi d Hd); congruence. }
    split.
    + simpl. rewrite filter_app, (filter_none _ (missing _ _ _)), app_nil_r; [reflexivity|].
      intros row Hin. apply Z.eqb_neq. auto.
    + intros a body Hc. apply in_app_or in Hc. destruct Hc as [Hc|Hc].
      * apply reads_are_gets in Hc. simpl in Hc. destruct Hc as (_ & Hc & _). discriminate.
      * apply in_map_iff in Hc. destruct Hc as (row & E & Hin). inversion E; subst. auto.
Qed.

Lemma application_pin_spares_pinned_devices_witness :
  Values.should_be_running__release (values pin_application) = number 9 /\
  affectedIds pin_application <> [] /\
  filter (fun row => ServiceInstall.device row =? 11)
    (service_install (store_of (PATCH_application_POSTRUN user_api pin_application fleet))) =
  [ServiceInstall.mk 11 1].
Proof.
  split; [reflexivity|]. split; [discriminate|].
  destruct (application_pin_spares_pinned_devices user_api pin_application fleet 9)
    as (_ & _ & _ & _ & H); [reflexivity | discriminate |].
  destruct (H 11) as [E _].
  - intros d [<-|[<-|[<-|[]]]]; simpl; intros; (discriminate || lia).
  - rewrite E. reflexivity.
Defined.

(** ** Application migration *)

(** The rows the purge removes are those its filter matches. *)
Lemma purge_store (api : PinejsClient) (ids : list Z) (s : Store) (row : ServiceInstall.t) :
  In row (service_install (store_of (deleteServiceInstallsForCurrentApp api ids s))) <->
  In row (service_install s) /\ current_app_install s ids row = false.
Proof.
  unfold deleteServiceInstallsForCurrentApp, delete_service_install, store_of. simpl.
  rewrite filter_In, negb_true_iff. reflexivity.
Qed.

Lemma current_app_install_true (s : Store) (ids : list Z) (row : ServiceInstall.t) :
  current_app_install s ids row = true <->
  In (ServiceInstall.device row) ids /\
  exists sv a d,
    In sv (service s) /\ Service.id sv = ServiceInstall.installs__service row /\
    In a (application s) /\ Application.id a = Service.application sv /\
    In d (device s) /\ Device.belongs_to__application d = Application.id a /\
    In (Device.id d) ids.
Proof.
  unfold current_app_install. rewrite andb_true_iff, mem_In, existsb_exists.
  split.
  - intros (Hd & sv & Hsv & H). apply andb_true_iff in H. destruct H as [E1 H].
    apply existsb_exists in H. destruct H as (a & Ha & H).
    apply andb_true_iff in H. destruct H as [E2 H].
    apply existsb_exists in H. destruct H as (d & Hdv & H).
    apply andb_true_iff in H. destruct H as [E3 H].
    apply Z.eqb_eq in E1, E2, E3. apply mem_In in H.
    split; [exact Hd|]. exists sv, a, d. tauto.
  - intros (Hd & sv & a & d & Hsv & E1 & Ha & E2 & Hdv & E3 & Hin).
    split; [exact Hd|]. exists sv. split; [exact Hsv|].
    apply andb_true_iff. split; [apply Z.eqb_eq; exact E1|].
    apply existsb_exists. exists a. split; [exact Ha|].
    apply andb_true_iff. split; [apply Z.eqb_eq; exact E2|].
    apply existsb_exists. exists d. split; [exact Hdv|].
    apply andb_true_iff. split; [apply Z.eqb_eq; exact E3 | apply mem_In; exact Hin].
Qed.

(** C3. When a PATCH on device carries a non-null application and addresses
    at least one device, the PRERUN hook resolves the affected ids, then
    issues the delete of the devices' current-application installs, and only
    then runs the reconciliation for the default pin of the destination
    application: its calls are the device read, the one delete, and the calls
    of [createAppServiceInstalls] started from the purged store; every post
    comes after the delete, and pairs an affected device with a service of
    the release the destination application is pinned to.  The creation is
    in the store the hook leaves: its rows are those of the purged store
    followed by the posted rows, every posted row is there, and every
    affected device has a row for every service of the release the
    destination application is pinned to. *)
Theorem migration_purges_before_creating (api : PinejsClient) (request : Request)
    (s : Store) (appId : Z) :
  Values.belongs_to__application (values request) = number appId ->
  let ids := map Device.id (filter (eval_filter (odataQuery request)) (device s)) in
  ids <> [] ->
  let r := PATCH_device_PRERUN api request s in
  let purged := store_of (deleteServiceInstallsForCurrentApp api ids s) in
  let creates := createAppServiceInstalls api appId ids purged in
  calls r = Get api r_device :: Delete api r_service_install :: calls creates /\
  store_of r = store_of creates /\
  (forall c, In c (calls creates) -> is_delete c = false) /\
  (forall row, In row (service_install purged) <->
               In row (service_install s) /\ current_app_install s ids row = false) /\
  (forall row d sv a,
      In row (service_install purged) ->
      In d (device s) -> Device.id d = ServiceInstall.device row -> In (Device.id d) ids ->
      In sv (service s) -> Service.id sv = ServiceInstall.installs__service row ->
      In a (application s) -> Application.id a = Service.application sv ->
      Device.belongs_to__application d <> Application.id a) /\
  (forall a body, In (Post a body) (calls r) ->
      In (ServiceInstall.device body) ids /\
      In (ServiceInstall.installs__service body)
         (release_service_ids s (should_be_running_on__application_id appId))) /\
  (forall before a body after,
      calls r = before ++ Post a body :: after ->
      In (Delete api r_service_install) before) /\
  (exists added,
      service_install (store_of r) = service_install purged ++ added /\
      forall body, In body added <-> In (Post api body) (calls r)) /\
  (forall a body, In (Post a body) (calls r) -> In body (service_install (store_of r))) /\
  (forall i sv,
      In i ids ->
      In sv (release_service_ids s (should_be_running_on__application_id appId)) ->
      In (ServiceInstall.mk i sv) (service_install (store_of r))).
Proof.
  intros Happ ids Hids r purged creates.
  assert (Hr : r = (tt, store_of creates,
                    Get api r_device :: Delete api r_service_install :: calls creates)).
  { unfold r, PATCH_device_PRERUN. rewrite Happ. cbv beta iota. unfold getAffectedIds.
    rewrite (bind_read _ _ s ids [Get api r_device]).
    2:{ reflexivity. }
    assert (Hne : negb (is_empty ids) = true) by (destruct ids; [congruence | reflexivity]).
    unfold result at 1, store_of at 1, calls at 1. cbn [fst snd].
    rewrite Hne, bind_run. unfold result at 1, store_of at 1, calls at 1.
    cbn [fst snd]. unfold creates, purged.
    destruct (createAppServiceInstalls api appId ids _) as [[[] s2] c2]. reflexivity. }
  assert (Hcreates : forall c, In c (calls creates) -> is_delete c = false).
  { intros c Hc.
    destruct (createReleaseServiceInstalls_additive api (Ids ids)
                (should_be_running_on__application_id appId) purged) as (_ & _ & H).
    apply H. exact Hc. }
  rewrite Hr. unfold calls at 1 3 4, store_of at 1. cbn [fst snd].
  split; [reflexivity|]. split; [reflexivity|]. split; [exact Hcreates|].
  assert (Hstore : service_install (store_of creates) =
            service_install purged ++
            missing purged (Ids ids) (should_be_running_on__application_id appId)).
  { unfold creates, createAppServiceInstalls. rewrite create_store. reflexivity. }
  assert (Hposted : forall a body,
            In (Post a body) (calls creates) <->
            a = api /\
            In body (missing purged (Ids ids) (should_be_running_on__application_id appId))).
  { intros a body. unfold creates, createAppServiceInstalls. rewrite create_calls, in_app_iff.
    split.
    - intros [Hc|Hc].
      + apply reads_are_gets in Hc. simpl in Hc. destruct Hc as (_ & Hc & _). discriminate.
      + apply in_map_iff in Hc. destruct Hc as (row & E & Hin). inversion E; subst. auto.
    - intros (-> & Hin). right. apply in_map. exact Hin. }
  split; [intros row; apply purge_store|]. split; [|split; [|split; [|split; [|split]]]].
  - intros row d sv a Hrow Hd Eid Hin Hsv Esv Ha Ea Eapp.
    apply purge_store in Hrow. destruct Hrow as [_ Hf].
    assert (Ht : current_app_install s ids row = true).
    { apply current_app_install_true. split; [rewrite <- Eid; exact Hin|].
      exists sv, a, d. tauto. }
    congruence.
  - intros a body [Hc|[Hc|Hc]]; try discriminate.
    unfold creates, createAppServiceInstalls in Hc. rewrite create_calls in Hc.
    apply in_app_or in Hc. destruct Hc as [Hc|Hc].
    + apply reads_are_gets in Hc. simpl in Hc. destruct Hc as (_ & Hc & _). discriminate.
    + apply in_map_iff in Hc. destruct Hc as (row & E & Hin). inversion E; subst.
      apply missing_sound in Hin. destruct Hin as (H1 & H2 & _).
      rewrite (release_service_ids_same s) in H2 by apply same_tables_with.
      split; assumption.
  - intros before a body after E.
    destruct before as [|c1 [|c2 before]]; simpl in E.
    + discriminate.
    + injection E as _ E2. discriminate.
    + injection E as _ E2 _. right. left. symmetry. exact E2.
  - exists (missing purged (Ids ids) (should_be_running_on__application_id appId)).
    split; [exact Hstore|]. intros body. split.
    + intros Hin. right. right. apply Hposted. auto.
    + intros [Hc|[Hc|Hc]]; try discriminate. apply Hposted in Hc. tauto.
  - intros a body [Hc|[Hc|Hc]]; try discriminate. apply Hposted in Hc.
    enough (Hin : In body (service_install (store_of creates))) by exact Hin.
    rewrite Hstore. apply in_or_app. right. tauto.
  - intros i sv Hi Hsv.
    enough (Hin : In (ServiceInstall.mk i sv) (service_install (store_of creates)))
      by exact Hin.
    rewrite Hstore. apply missing_complete.
    + destruct ids; [contradiction | reflexivity].
    + exact Hi.
    + rewrite (release_service_ids_same s) by apply same_tables_with. exact Hsv.
Qed.

Lemma migration_purges_before_creating_witness :
  calls (PATCH_device_PRERUN user_api move_devices fleet) =
  [ Get user_api r_device; Delete user_api r_service_install;
    Get user_api r_service; Get user_api r_service_install;
    Post user_api (ServiceInstall.mk 10 3); Post user_api (ServiceInstall.mk 20 3) ] /\
  In (ServiceInstall.mk 20 3)
     (service_install (store_of (PATCH_device_PRERUN user_api move_devices fleet))).
Proof.
  assert (Hids : map Device.id (filter (eval_filter (odataQuery move_devices)) (device fleet))
                 <> []) by discriminate.
  pose proof (migration_purges_before_creating user_api move_devices fleet 2 eq_refl Hids)
    as H.
  cbv zeta in H. destruct H as (Hcalls & _ & _ & _ & _ & _ & _ & _ & _ & Hrows).
  split.
  - exact (eq_trans Hcalls eq_refl).
  - apply Hrows; simpl; auto.
Defined.

(** C10. The purge deletes a row of a batch device whenever the application
    of the row's service owns some device of the batch, whichever device that
    is: the filter ranges over all the batch ids at once, so a row of device
    [d] for a service of the application of another batch device goes too. *)
Theorem purge_reaches_across_the_batch (api : PinejsClient) (ids : list Z) (s : Store)
    (row : ServiceInstall.t) (sv : Service.t) (a : Application.t) (other : Device.t) :
  In row (service_install s) ->
  In (ServiceInstall.device row) ids ->
  In sv (service s) -> Service.id sv = ServiceInstall.installs__service row ->
  In a (application s) -> Application.id a = Service.application sv ->
  In other (device s) -> In (Device.id other) ids ->
  Device.belongs_to__application other = Application.id a ->
  ~ In row (service_install (store_of (deleteServiceInstallsForCurrentApp api ids s))).
Proof.
  intros Hrow Hd Hsv Esv Ha Ea Ho Hoid Eo Hin.
  apply purge_store in Hin. destruct Hin as [_ Hf].
  assert (Ht : current_app_install s ids row = true).
  { apply current_app_install_true. split; [exact Hd|]. exists sv, a, other. tauto. }
  congruence.
Qed.

Lemma purge_reaches_across_the_batch_witness :
  In (Device.mk 10 1 None (Some 7) None) (device fleet) /\
  Service.application (Service.mk 3 2) = 2 /\
  In (ServiceInstall.mk 10 3)
     (service_install (store_of (deleteServiceInstallsForCurrentApp user_api [10] fleet))) /\
  ~ In (ServiceInstall.mk 10 3)
      (service_install (store_of (deleteServiceInstallsForCurrentApp user_api [10; 20] fleet))).
Proof.
  split; [simpl; auto|]. split; [reflexivity|]. split; [simpl; auto|].
  apply (purge_reaches_across_the_batch user_api [10; 20] fleet (ServiceInstall.mk 10 3)
           (Service.mk 3 2) (Application.mk 2 (Some 12)) (Device.mk 20 2 None None None));
    simpl; auto 10.
Defined.


(** ** Permission contexts *)

Lemma issued_through_ret (api : PinejsClient) {A} (a : A) : issued_through api (ret a).
Proof. intros s c []. Qed.

Lemma issued_through_bind (api : PinejsClient) {A B} (m : M A) (k : A -> M B) :
  issued_through api m -> (forall a, issued_through api (k a)) ->
  issued_through api (bind m k).
Proof.
  intros Hm Hk s c Hc. rewrite bind_calls in Hc. apply in_app_or in Hc.
  destruct Hc as [Hc|Hc]; [eapply Hm | eapply Hk]; eassumption.
Qed.

Lemma issued_through_forM_ (api : PinejsClient) {A} (f : A -> M unit) (xs : list A) :
  (forall x, issued_through api (f x)) -> issued_through api (forM_ xs f).
Proof.
  intros Hf. induction xs as [|x xs IH]; simpl.
  - apply issued_through_ret.
  - apply issued_through_bind; auto.
Qed.

Lemma issued_through_get_device (api : PinejsClient) (f : FilterObj) :
  issued_through api (get_device api f).
Proof. intros s c [<-|[]]. reflexivity. Qed.

Lemma issued_through_delete (api : PinejsClient) (ids : list Z) :
  issued_through api (deleteServiceInstallsForCurrentApp api ids).
Proof. intros s c [<-|[]]. reflexivity. Qed.

Lemma issued_through_create (api : PinejsClient) (sel : DeviceSelector) (rf : Filter) :
  issued_through api (createReleaseServiceInstalls api sel rf).
Proof.
  intros s c Hc. rewrite create_calls in Hc. apply in_app_or in Hc.
  destruct Hc as [Hc|Hc].
  - apply reads_are_gets in Hc. tauto.
  - apply in_map_iff in Hc. destruct Hc as (row & <- & _). reflexivity.
Qed.

(** C6, as stated, fails on both counts: the reconciliation that follows an
    application pin is issued with the caller's request, not with
    [permissions.root]; and the reconciliation that follows the creation of a
    device is issued with [permissions.root], not with the caller's
    request. *)
Lemma application_pin_runs_as_root_counterexample :
  Values.should_be_running__release (values pin_application) = number 9 /\
  affectedIds pin_application <> [] /\
  ~ (forall c, In c (calls (PATCH_application_POSTRUN user_api pin_application fleet)) ->
               passthrough_req (call_api c) = root) /\
  ~ (forall c, In c (calls (POST_device_POSTRUN user_api 1 create_device (Some 30) fleet)) ->
               passthrough_req (call_api c) = passthrough_req user_api).
Proof.
  split; [reflexivity|]. split; [discriminate|]. split.
  - intros H. specialize (H (Get user_api r_device)). simpl in H.
    assert (E : caller 7 = root) by auto. discriminate.
  - intros H. specialize (H (Get (mkApi 1 root) r_service)). simpl in H.
    assert (E : root = caller 7) by auto. discriminate.
Qed.

(** C6, amended. Every call of the reconciliation triggered by an
    application pin, and of the three PATCH device hooks, is issued through
    the client the hook received: the transaction and the permission request
    of the mutation.  Every call of the two POST device hooks is issued
    through a clone of that client that carries the transaction handed to the
    hook and [permissions.root]. *)
Theorem hooks_permission_contexts :
  (forall api request, issued_through api (PATCH_application_POSTRUN api request)) /\
  (forall api request, issued_through api (PATCH_device_PRERUN api request)) /\
  (forall api request, issued_through api (PATCH_device_POSTRUN api request)) /\
  (forall api request, issued_through api (PATCH_device_POSTRUN_supervisor api request)) /\
  (forall api tx request result,
      issued_through (mkApi tx root) (POST_device_POSTRUN api tx request result)) /\
  (forall api tx request result,
      issued_through (mkApi tx root) (POST_device_POSTRUN_supervisor api tx request result)).
Proof.
  split; [|split; [|split; [|split; [|split]]]].
  - intros api request. unfold PATCH_application_POSTRUN.
    destruct (Values.should_be_running__release _); try apply issued_through_ret.
    destruct (negb _); [apply issued_through_create | apply issued_through_ret].
  - intros api request. unfold PATCH_device_PRERUN.
    destruct (Values.belongs_to__application _); try apply issued_through_ret.
    apply issued_through_bind.
    + unfold getAffectedIds. apply issued_through_bind;
        [apply issued_through_get_device | intros; apply issued_through_ret].
    + intros ids. destruct (negb _); [|apply issued_through_ret].
      apply issued_through_bind; [apply issued_through_delete|].
      intros _. apply issued_through_create.
  - intros api request. unfold PATCH_device_POSTRUN.
    destruct (Values.should_be_running__release _); try apply issued_through_ret;
      (destruct (negb _); [|apply issued_through_ret]).
    + apply issued_through_bind; [apply issued_through_get_device|]. intros devices.
      apply issued_through_forM_. intros appId.
      destruct (lookup appId _); [apply issued_through_ret | apply issued_through_create].
    + apply issued_through_create.
  - intros api request. unfold PATCH_device_POSTRUN_supervisor.
    destruct (Values.should_be_managed_by__release _); try apply issued_through_ret.
    destruct (negb _); [apply issued_through_create | apply issued_through_ret].
  - intros api tx request created. unfold POST_device_POSTRUN.
    destruct created; [|apply issued_through_ret].
    destruct (Values.belongs_to__application _); try apply issued_through_ret.
    apply issued_through_create.
  - intros api tx request created. unfold POST_device_POSTRUN_supervisor.
    destruct created; [|apply issued_through_ret].
    destruct (Values.should_be_managed_by__release _); try apply issued_through_ret.
    apply issued_through_create.
Qed.


(** ** The notifier *)

(** The filter the notifier sends. *)
Lemma update_filter_matches (affected : list Z) (pin : Z) (d : Device.t) :
  eval_filter (update_filter affected pin) d = true <->
  In (Device.belongs_to__application d) affected /\
  Device.is_running__release d <> Some pin /\
  Device.should_be_running__release d = None.
Proof.
  unfold update_filter. simpl. rewrite andb_true_r, !andb_true_iff, mem_In.
  assert (H1 : ne (Device.is_running__release d) pin = true <->
               Device.is_running__release d <> Some pin).
  { destruct (Device.is_running__release d) as [x|]; simpl.
    - rewrite negb_true_iff, Z.eqb_neq. split; congruence.
    - split; [discriminate | reflexivity]. }
  assert (H2 : is_null (Device.should_be_running__release d) = true <->
               Device.should_be_running__release d = None).
  { destruct (Device.should_be_running__release d); simpl; split; congruence. }
  rewrite H1, H2. reflexivity.
Qed.

(** C7. After an application pin (non-null pin, at least one affected
    application) the hook registers one listener on the transaction's 'end'
    event.  The request it sends targets exactly the devices that belong to
    an affected application, whose running release is not the new pin and
    whose own pin is null.  Whatever [postDevices] answers, the listener
    sends that one request only and its promise resolves; when [postDevices]
    rejects, the error goes to the error sink with the message of the
    source, and nothing else does. *)
Theorem notifier_targets_and_swallows (Error : Type)
    (postDevices : list PostDevicesArgs -> PostDevicesArgs -> option Error)
    (request : Request) (pin : Z) (on_end : list (Listener Error)) :
  Values.should_be_running__release (values request) = number pin ->
  affectedIds request <> [] ->
  let target :=
    mkPostDevicesArgs "/v1/update" root (update_filter (affectedIds request) pin) false in
  let listener := notify_updates Error postDevices (affectedIds request) pin in
  PATCH_application_POSTRUN_notifier Error postDevices request on_end = on_end ++ [listener] /\
  (forall d, eval_filter (filter_ target) d = true <->
             In (Device.belongs_to__application d) (affectedIds request) /\
             Device.is_running__release d <> Some pin /\
             Device.should_be_running__release d = None) /\
  (forall o,
      fst (listener o) = None /\
      posted (snd (listener o)) = posted o ++ [target] /\
      captured (snd (listener o)) =
        match postDevices (posted o) target with
        | None => captured o
        | Some err => captured o ++ [(err, "Error notifying device updates"%string)]
        end /\
      emit_end Error [listener] o = ([], snd (listener o))).
Proof.
  intros Hpin Haff target listener. split; [|split].
  - unfold PATCH_application_POSTRUN_notifier. rewrite Hpin.
    destruct (affectedIds request); [congruence | reflexivity].
  - apply update_filter_matches.
  - intros o. unfold listener, notify_updates. fold target.
    destruct (postDevices (posted o) target) eqn:E; simpl; fold target; rewrite E; auto.
Qed.

Lemma notifier_targets_and_swallows_witness :
  Values.should_be_running__release (values pin_application) = number 9 /\
  affectedIds pin_application <> [] /\
  emit_end string
    (PATCH_application_POSTRUN_notifier string refusing_proxy pin_application [])
    (mkOutside [] []) =
  ([], mkOutside
         [mkPostDevicesArgs "/v1/update" root (update_filter [1] 9) false]
         [("ECONNREFUSED"%string, "Error notifying device updates"%string)]).
Proof.
  split; [reflexivity|]. split; [discriminate|].
  destruct (notifier_targets_and_swallows string refusing_proxy pin_application 9 [])
    as (E & _ & H); [reflexivity | discriminate |].
  rewrite E.
  destruct (H (mkOutside [] [])) as (_ & _ & _ & E2). exact (eq_trans E2 eq_refl).
Defined.

(** ** Device pins *)

Lemma forM_ext_in {A} (f g : A -> M unit) (xs : list A) :
  (forall x s, In x xs -> f x s = g x s) ->
  forall s, forM_ xs f s = forM_ xs g s.
Proof.
  induction xs as [|x xs IH]; intros H s; simpl; [reflexivity|].
  rewrite !bind_run. rewrite (H x s) by (left; reflexivity).
  rewrite (IH (fun y s' Hy => H y s' (or_intror Hy))). reflexivity.
Qed.

Lemma bind_get_device (api : PinejsClient) (f : FilterObj) {B}
    (k : list Device.t -> M B) (s : Store) :
  bind (get_device api f) k s =
  (result (k (filter (eval_filter f) (device s)) s),
   store_of (k (filter (eval_filter f) (device s)) s),
   Get api r_device :: calls (k (filter (eval_filter f) (device s)) s)).
Proof. rewrite bind_run. reflexivity. Qed.

(** Reconciling one group after the other, each against the pin of its own
    application. *)
Lemma forM_createAppServiceInstalls (api : PinejsClient) (ids_of : Z -> list Z)
    (s : Store) (apps : list Z) :
  forall s0, same_tables s s0 ->
  let r := forM_ apps (fun appId => createAppServiceInstalls api appId (ids_of appId)) s0 in
  same_tables s (store_of r) /\
  (forall row, In row (service_install s0) -> In row (service_install (store_of r))) /\
  (forall appId i sv,
      In appId apps -> In i (ids_of appId) ->
      In sv (release_service_ids s (should_be_running_on__application_id appId)) ->
      In (ServiceInstall.mk i sv) (service_install (store_of r))) /\
  (forall a body,
      In (Post a body) (calls r) ->
      exists appId, In appId apps /\ In (ServiceInstall.device body) (ids_of appId) /\
        In (ServiceInstall.installs__service body)
           (release_service_ids s (should_be_running_on__application_id appId))).
Proof.
  induction apps as [|appId apps IH]; intros s0 Hs0; cbv zeta.
  - simpl. split; [exact Hs0|]. split; [auto|]. split; [intros ? ? ? []|intros ? ? []].
  - cbn [forM_]. rewrite bind_store, bind_calls.
    set (first := createAppServiceInstalls api appId (ids_of appId) s0).
    assert (Hfirst : same_tables s (store_of first)).
    { eapply same_tables_trans; [exact Hs0|].
      unfold first, createAppServiceInstalls. rewrite create_store. apply same_tables_with. }
    destruct (IH (store_of first) Hfirst) as (T & K & C & P).
    set (r := forM_ apps _ (store_of first)) in *.
    split; [exact T|]. split; [|split].
    + intros row Hrow. apply K. unfold first, createAppServiceInstalls.
      rewrite create_store. simpl. apply in_or_app. left. exact Hrow.
    + intros app' i sv [<-|Hin] Hi Hsv; [|eapply C; eassumption].
      apply K. unfold first, createAppServiceInstalls. rewrite create_store.
      cbn [service_install with_service_install].
      apply missing_complete.
      * destruct (ids_of appId); [contradiction | reflexivity].
      * exact Hi.
      * rewrite (release_service_ids_same s) by exact Hs0. exact Hsv.
    + intros a body Hc. apply in_app_or in Hc. destruct Hc as [Hc|Hc].
      * exists appId. split; [left; reflexivity|].
        unfold first, createAppServiceInstalls in Hc. rewrite create_calls in Hc.
        apply in_app_or in Hc. destruct Hc as [Hc|Hc].
        -- apply reads_are_gets in Hc. simpl in Hc. destruct Hc as (_ & Hc & _). discriminate.
        -- apply in_map_iff in Hc. destruct Hc as (row & E & Hin). inversion E; subst.
           apply missing_sound in Hin. destruct Hin as (H1 & H2 & _).
           rewrite (release_service_ids_same s) in H2 by exact Hs0. split; assumption.
      * destruct (P a body Hc) as (app' & Hin & H). exists app'. split; [right; exact Hin | exact H].
Qed.

(** On an explicit null the device hook reads the affected devices and runs
    one reconciliation per application among them, on the devices of that
    application. *)
Lemma PATCH_device_POSTRUN_null_run (api : PinejsClient) (request : Request) (s : Store) :
  Values.should_be_running__release (values request) = null ->
  affectedIds request <> [] ->
  let affected := affectedIds request in
  let devices := filter (eval_filter [id_in affected]) (device s) in
  let apps := map fst (groupBy Device.belongs_to__application devices) in
  let group appId := filter (fun d => appId =? Device.belongs_to__application d) devices in
  PATCH_device_POSTRUN api request s =
    (_ <- get_device api [id_in affected] ;;
     forM_ apps (fun appId =>
       createAppServiceInstalls api appId (map Device.id (group appId)))) s /\
  (forall d, In d devices <-> In d (device s) /\ In (Device.id d) affected) /\
  (forall appId, In appId apps <->
     exists d, In d devices /\ Device.belongs_to__application d = appId).
Proof.
  intros Hnull Haff affected devices apps group.
  assert (Hne : negb (is_empty affected) = true).
  { unfold affected. destruct (affectedIds request); [congruence | reflexivity]. }
  assert (Hdev : forall d, In d devices <-> In d (device s) /\ In (Device.id d) affected).
  { intros d. unfold devices. rewrite filter_In. simpl. rewrite andb_true_r, mem_In.
    reflexivity. }
  assert (Happs : forall appId, In appId apps <->
            exists d, In d devices /\ Device.belongs_to__application d = appId).
  { intros appId. unfold apps. rewrite groupBy_keys, in_map_iff.
    split; intros (d & H1 & H2); exists d; tauto. }
  split; [|split; assumption].
  unfold PATCH_device_POSTRUN. rewrite Hnull. fold affected. rewrite Hne.
  rewrite !bind_get_device. fold devices. fold apps.
  rewrite (forM_ext_in _ (fun appId =>
             createAppServiceInstalls api appId (map Device.id (group appId)))).
  - reflexivity.
  - intros appId s0 Hin. rewrite groupBy_lookup. fold (group appId).
    apply Happs in Hin. destruct Hin as (d & Hd & Eapp).
    destruct (group appId) as [|d0 rest] eqn:Eg.
    + assert (Hd' : In d (group appId)).
      { unfold group. apply filter_In. split; [exact Hd | apply Z.eqb_eq; congruence]. }
      rewrite Eg in Hd'. contradiction.
    + assert (Hd0 : In d0 (group appId)) by (rewrite Eg; left; reflexivity).
      unfold group in Hd0. apply filter_In in Hd0. destruct Hd0 as [_ E0].
      apply Z.eqb_eq in E0. rewrite <- E0. reflexivity.
Qed.

(** C5. When a PATCH on device carries the release pin (a number or an
    explicit null) and affects at least one device: with a number, the hook
    is the reconciliation of the affected devices against that release, and
    afterwards each of them has a row for every service of it; with null, the
    hook reads the affected devices, groups them by the application they
    belong to and reconciles each group against the release its own
    application is pinned to: every post pairs an affected device with a
    service of the pin of that device's application, and afterwards every
    affected device has a row for every such service. *)
Theorem device_pin_reconciles (api : PinejsClient) (request : Request) (s : Store) :
  Values.should_be_running__release (values request) <> undefined ->
  affectedIds request <> [] ->
  let affected := affectedIds request in
  let r := PATCH_device_POSTRUN api request s in
  (forall pin,
      Values.should_be_running__release (values request) = number pin ->
      r = createReleaseServiceInstalls api (Ids affected) (release_id pin) s /\
      forall i sv, In i affected -> In sv (release_service_ids s (release_id pin)) ->
                   In (ServiceInstall.mk i sv) (service_install (store_of r))) /\
  (Values.should_be_running__release (values request) = null ->
   let devices := filter (eval_filter [id_in affected]) (device s) in
   let apps := map fst (groupBy Device.belongs_to__application devices) in
   let group appId := filter (fun d => appId =? Device.belongs_to__application d) devices in
   r = (_ <- get_device api [id_in affected] ;;
        forM_ apps (fun appId => createAppServiceInstalls api appId (map Device.id (group appId)))) s /\
   (forall d, In d devices <-> In d (device s) /\ In (Device.id d) affected) /\
   (forall appId, In appId apps <-> exists d, In d devices /\ Device.belongs_to__application d = appId) /\
   (forall a body, In (Post a body) (calls r) ->
      exists d, In d (device s) /\ In (Device.id d) affected /\
                Device.id d = ServiceInstall.device body /\
                In (ServiceInstall.installs__service body)
                   (release_service_ids s
                      (should_be_running_on__application_id (Device.belongs_to__application d)))) /\
   (forall d sv, In d (device s) -> In (Device.id d) affected ->
      In sv (release_service_ids s
               (should_be_running_on__application_id (Device.belongs_to__application d))) ->
      In (ServiceInstall.mk (Device.id d) sv) (service_install (store_of r)))).
Proof.
  intros Hdef Haff affected r.
  assert (Hne : negb (is_empty affected) = true).
  { unfold affected. destruct (affectedIds request); [congruence | reflexivity]. }
  split.
  - intros pin Hpin.
    assert (Hr : r = createReleaseServiceInstalls api (Ids affected) (release_id pin) s).
    { unfold r, PATCH_device_POSTRUN. rewrite Hpin. fold affected. rewrite Hne. reflexivity. }
    split; [exact Hr|]. intros i sv Hi Hsv. rewrite Hr, create_store.
    cbn [service_install with_service_install]. apply missing_complete; try assumption.
    simpl. destruct affected; [discriminate | reflexivity].
  - intros Hnull devices apps group.
    destruct (PATCH_device_POSTRUN_null_run api request s Hnull Haff) as (Hr & Hdev & Happs).
    fold affected devices apps group in Hr, Hdev, Happs. fold r in Hr.
    split; [exact Hr|]. split; [exact Hdev|]. split; [exact Happs|].
    rewrite Hr, bind_get_device. unfold store_of at 1, calls at 1. cbn [fst snd].
    fold devices.
    destruct (forM_createAppServiceInstalls api (fun appId => map Device.id (group appId))
                s apps s (same_tables_refl s)) as (_ & _ & C & P).
    split.
    + intros a body [Hc|Hc]; [discriminate|].
      destruct (P a body Hc) as (appId & _ & Hi & Hsv).
      apply in_map_iff in Hi. destruct Hi as (d & Eid & Hd).
      unfold group in Hd. apply filter_In in Hd. destruct Hd as [Hd E].
      apply Z.eqb_eq in E. apply Hdev in Hd. exists d.
      rewrite <- E. tauto.
    + intros d sv Hd Hid Hsv.
      apply (C (Device.belongs_to__application d)).
      * apply Happs. exists d. split; [apply Hdev; tauto | reflexivity].
      * apply in_map. unfold group. apply filter_In.
        split; [apply Hdev; tauto | apply Z.eqb_refl].
      * exact Hsv.
Qed.

Lemma device_pin_reconciles_witness :
  Values.should_be_running__release (values unpin_devices) <> undefined /\
  affectedIds unpin_devices <> [] /\
  In (ServiceInstall.mk 20 3)
     (service_install (store_of (PATCH_device_POSTRUN user_api unpin_devices fleet))).
Proof.
  split; [discriminate|]. split; [discriminate|].
  destruct (device_pin_reconciles user_api unpin_devices fleet) as [_ H];
    [discriminate | discriminate |].
  destruct (H eq_refl) as (_ & _ & _ & _ & C).
  apply (C (Device.mk 20 2 None None None) 3); simpl; auto.
Defined.

(** Rows of other devices do not change what a run posts for [ids]. *)
Lemma missing_frame (s : Store) (extra : list ServiceInstall.t) (ids : list Z) (rf : Filter) :
  (forall row, In row extra -> ~ In (ServiceInstall.device row) ids) ->
  missing (with_service_install s (service_install s ++ extra)) (Ids ids) rf =
  missing s (Ids ids) rf.
Proof.
  intros Hextra. unfold missing.
  rewrite (release_service_ids_same s) by apply same_tables_with.
  replace (installed (with_service_install s (service_install s ++ extra)) (Ids ids)
             (release_service_ids s rf))
    with (installed s (Ids ids) (release_service_ids s rf)); [reflexivity|].
  unfold installed. simpl. rewrite filter_app, (filter_none _ extra), app_nil_r; [reflexivity|].
  intros row Hrow. apply andb_false_iff. left. apply mem_false. auto.
Qed.

Lemma sorted_NoDup (l : list Z) : StronglySorted Z.lt l -> NoDup l.
Proof.
  induction 1 as [|x l Hs IH Hf]; constructor; [|exact IH].
  intros Hin. rewrite Forall_forall in Hf. specialize (Hf x Hin). lia.
Qed.

Lemma groupBy_keys_NoDup {A} (key : A -> Z) (xs : list A) :
  NoDup (map fst (groupBy key xs)).
Proof.
  apply sorted_NoDup. unfold groupBy.
  destruct (groupBy_fold key xs [] (SSorted_nil _)) as (H & _). exact H.
Qed.

Lemma NoDup_map_inj {A} (f : A -> Z) (l : list A) (x y : A) :
  NoDup (map f l) -> In x l -> In y l -> f x = f y -> x = y.
Proof.
  induction l as [|a l IH]; simpl; intros Hnd Hx Hy E; [contradiction|].
  inversion Hnd as [|? ? Hn Hnd']; subst.
  destruct Hx as [<-|Hx], Hy as [<-|Hy]; auto.
  - elim Hn. rewrite E. apply in_map. exact Hy.
  - elim Hn. rewrite <- E. apply in_map. exact Hx.
Qed.

(** Groups over disjoint devices: the rows posted one group after the other
    are those each group would post from the store the hook started with, so
    the outcome does not depend on how the runs of [Promise.all] interleave
    their reads and posts. *)
Lemma forM_createAppServiceInstalls_disjoint (api : PinejsClient) (ids_of : Z -> list Z)
    (s : Store) (apps : list Z) :
  NoDup apps ->
  (forall a1 a2 i, In a1 apps -> In a2 apps ->
                   In i (ids_of a1) -> In i (ids_of a2) -> a1 = a2) ->
  forall extra,
    (forall row a, In row extra -> In a apps -> ~ In (ServiceInstall.device row) (ids_of a)) ->
    service_install
      (store_of (forM_ apps (fun appId => createAppServiceInstalls api appId (ids_of appId))
                   (with_service_install s (service_install s ++ extra)))) =
    (service_install s ++ extra) ++
    flat_map (fun appId =>
                missing s (Ids (ids_of appId)) (should_be_running_on__application_id appId))
             apps.
Proof.
  induction apps as [|appId apps IH]; intros Hnd Hdisj extra Hextra.
  - simpl. rewrite app_nil_r. reflexivity.
  - cbn [forM_ flat_map]. rewrite bind_store.
    unfold createAppServiceInstalls at 2. rewrite create_store, with_service_install_twice.
    cbn [service_install with_service_install].
    rewrite missing_frame by (intros row Hrow; apply (Hextra row appId Hrow); left; reflexivity).
    rewrite <- app_assoc.
    inversion Hnd as [|? ? Hnotin Hnd']; subst.
    rewrite IH.
    + rewrite <- !app_assoc. reflexivity.
    + exact Hnd'.
    + intros a1 a2 i H1 H2. apply Hdisj; right; assumption.
    + intros row a Hrow Ha. apply in_app_or in Hrow. destruct Hrow as [Hrow|Hrow].
      * apply (Hextra row a Hrow). right. exact Ha.
      * intros Hin. apply missing_sound in Hrow. destruct Hrow as (Hd & _). simpl in Hd.
        assert (E : appId = a) by (eapply Hdisj; [left; reflexivity | right; exact Ha | exact Hd | exact Hin]).
        subst. contradiction.
Qed.

(** With device ids that identify their rows, the device hook, on an explicit
    null, posts for each application's group what that group lacks in the
    store the hook started with. *)
Lemma PATCH_device_POSTRUN_null_rows (api : PinejsClient) (request : Request) (s : Store) :
  NoDup (map Device.id (device s)) ->
  Values.should_be_running__release (values request) = null ->
  affectedIds request <> [] ->
  let devices := filter (eval_filter [id_in (affectedIds request)]) (device s) in
  let apps := map fst (groupBy Device.belongs_to__application devices) in
  let group appId := filter (fun d => appId =? Device.belongs_to__application d) devices in
  service_install (store_of (PATCH_device_POSTRUN api request s)) =
  service_install s ++
  flat_map (fun appId =>
              missing s (Ids (map Device.id (group appId)))
                      (should_be_running_on__application_id appId))
           apps.
Proof.
  intros Hnd Hnull Haff devices apps group.
  destruct (PATCH_device_POSTRUN_null_run api request s Hnull Haff) as (Hr & Hdev & _).
  fold devices apps group in Hr, Hdev. rewrite Hr.
  rewrite bind_get_device. unfold store_of at 1. cbn [fst snd].
  pose proof (forM_createAppServiceInstalls_disjoint api
                (fun appId => map Device.id (group appId)) s apps) as D.
  specialize (D (groupBy_keys_NoDup _ _)).
  assert (Hdisj : forall a1 a2 i, In a1 apps -> In a2 apps ->
            In i (map Device.id (group a1)) -> In i (map Device.id (group a2)) -> a1 = a2).
  { intros a1 a2 i _ _ H1 H2.
    apply in_map_iff in H1. destruct H1 as (d1 & E1 & H1).
    apply in_map_iff in H2. destruct H2 as (d2 & E2 & H2).
    unfold group in H1, H2. apply filter_In in H1, H2.
    destruct H1 as [H1 K1], H2 as [H2 K2]. apply Z.eqb_eq in K1, K2.
    assert (d1 = d2).
    { apply (NoDup_map_inj Device.id (device s)); [exact Hnd | | | congruence].
      - apply Hdev in H1. tauto.
      - apply Hdev in H2. tauto. }
    congruence. }
  specialize (D Hdisj [] (fun row a F => match F with end)).
  rewrite app_nil_r, with_service_install_same in D. exact D.
Qed.

(** The fleet after its three devices were unpinned: the devices of
    application 1 have its services 1 and 2, device 20 has service 3, and
    device 10 keeps its install of service 3, which no application pin asks
    for. *)
Example unpin_devices_run :
  let rows := service_install (store_of (PATCH_device_POSTRUN user_api unpin_devices fleet)) in
  In (ServiceInstall.mk 10 1) rows /\ In (ServiceInstall.mk 10 2) rows /\
  In (ServiceInstall.mk 11 2) rows /\ In (ServiceInstall.mk 20 3) rows /\
  In (ServiceInstall.mk 10 3) rows.
Proof. vm_compute. intuition. Qed.

(** ** More on the reconciler *)

Lemma nonempty_not_zero (s : Store) (sel : DeviceSelector) (i : Z) :
  In i (resolved_ids s sel) -> length_is_zero sel = false.
Proof. destruct sel as [[|]|]; simpl; intros H; [contradiction | reflexivity | reflexivity]. Qed.

(** X1. Completeness: after a run every device the selector resolves to has
    a row for every service the release filter resolves to. *)
Theorem createReleaseServiceInstalls_complete (api : PinejsClient) (sel : DeviceSelector)
    (rf : Filter) (s : Store) (i sv : Z) :
  In i (resolved_ids s sel) ->
  In sv (release_service_ids s rf) ->
  In (ServiceInstall.mk i sv)
     (service_install (store_of (createReleaseServiceInstalls api sel rf s))).
Proof.
  intros Hi Hsv. rewrite create_store. cbn [service_install with_service_install].
  apply missing_complete; [eapply nonempty_not_zero; exact Hi | exact Hi | exact Hsv].
Qed.

Lemma createReleaseServiceInstalls_complete_witness :
  In 10 (resolved_ids fleet (Obj [belongs_to__application_in [1]; should_be_running__release_null])) /\
  In 2 (release_service_ids fleet (release_id 9)) /\
  In (ServiceInstall.mk 10 2)
     (service_install (store_of (createReleaseServiceInstalls user_api
        (Obj [belongs_to__application_in [1]; should_be_running__release_null])
        (release_id 9) fleet))).
Proof.
  assert (H1 : In 10 (resolved_ids fleet
            (Obj [belongs_to__application_in [1]; should_be_running__release_null])))
    by (simpl; auto).
  assert (H2 : In 2 (release_service_ids fleet (release_id 9))) by (simpl; auto).
  split; [exact H1|]. split; [exact H2|].
  exact (createReleaseServiceInstalls_complete user_api _ _ fleet 10 2 H1 H2).
Defined.

Lemma NoDup_app_intro {A} (l1 l2 : list A) :
  NoDup l1 -> NoDup l2 -> (forall x, In x l1 -> ~ In x l2) -> NoDup (l1 ++ l2).
Proof.
  induction l1 as [|a l1 IH]; simpl; intros H1 H2 Hd; [exact H2|].
  inversion H1 as [|? ? Hn H1']; subst. constructor.
  - intros Hin. apply in_app_or in Hin. destruct Hin as [Hin|Hin]; [auto|].
    apply (Hd a); auto.
  - apply IH; auto.
Qed.

Lemma NoDup_filter {A} (p : A -> bool) (l : list A) : NoDup l -> NoDup (filter p l).
Proof.
  induction 1 as [|x l Hn Hnd IH]; simpl; [constructor|].
  destruct (p x); [constructor|]; auto. rewrite filter_In. tauto.
Qed.

Lemma NoDup_rows (i : Z) (svs : list Z) : NoDup svs -> NoDup (map (ServiceInstall.mk i) svs).
Proof.
  induction 1 as [|x l Hn Hnd IH]; simpl; constructor; auto.
  rewrite in_map_iff. intros (y & E & Hy). inversion E; subst. auto.
Qed.

Lemma NoDup_missing (s : Store) (sel : DeviceSelector) (rf : Filter) :
  NoDup (resolved_ids s sel) -> NoDup (release_service_ids s rf) ->
  NoDup (missing s sel rf).
Proof.
  intros Hids Hsvs. unfold missing. destruct (length_is_zero sel); [constructor|].
  induction Hids as [|i ids Hn Hnd IH]; simpl; [constructor|].
  apply NoDup_app_intro.
  - apply NoDup_rows. unfold difference. apply NoDup_filter. exact Hsvs.
  - exact IH.
  - intros row H1 H2. apply in_map_iff in H1. destruct H1 as (sv & <- & _).
    apply in_flat_map in H2. destruct H2 as (j & Hj & H2).
    apply in_map_iff in H2. destruct H2 as (sv' & E & _). inversion E; subst. auto.
Qed.

Lemma count_rows_NoDup (i sv : Z) (rows : list ServiceInstall.t) :
  NoDup rows -> In (ServiceInstall.mk i sv) rows -> count_rows i sv rows = 1%nat.
Proof.
  unfold count_rows. induction 1 as [|row rows Hn Hnd IH]; simpl; [contradiction|].
  intros [E|Hin].
  - subst. simpl. rewrite !Z.eqb_refl. simpl. f_equal.
    rewrite filter_none; [reflexivity|].
    intros row Hrow. destruct row as [d v]. simpl.
    destruct (Z.eqb_spec d i); [|reflexivity]. destruct (Z.eqb_spec v sv); [|reflexivity].
    subst. contradiction.
  - destruct row as [d v]. simpl.
    destruct (Z.eqb_spec d i); [|auto]. destruct (Z.eqb_spec v sv); [|auto].
    subst. contradiction.
Qed.

(** X2. The reconciler keeps the table free of duplicates: when no row is
    repeated before the run, and the resolved device ids and the service ids
    of the release are each without repetition, no row is repeated after
    it, and each (device, service) pair of the run has exactly one row. *)
Theorem createReleaseServiceInstalls_NoDup (api : PinejsClient) (sel : DeviceSelector)
    (rf : Filter) (s : Store) :
  NoDup (service_install s) ->
  NoDup (resolved_ids s sel) ->
  NoDup (release_service_ids s rf) ->
  NoDup (service_install (store_of (createReleaseServiceInstalls api sel rf s))) /\
  forall i sv, In i (resolved_ids s sel) -> In sv (release_service_ids s rf) ->
    count_rows i sv
      (service_install (store_of (createReleaseServiceInstalls api sel rf s))) = 1%nat.
Proof.
  intros Hrows Hids Hsvs.
  assert (Hnd : NoDup (service_install (store_of (createReleaseServiceInstalls api sel rf s)))).
  { rewrite create_store. cbn [service_install with_service_install].
    apply NoDup_app_intro; [exact Hrows | apply NoDup_missing; assumption |].
    intros row Hin Hm. apply missing_sound in Hm. tauto. }
  split; [exact Hnd|]. intros i sv Hi Hsv. apply count_rows_NoDup; [exact Hnd|].
  rewrite create_store. cbn [service_install with_service_install].
  apply missing_complete; [eapply nonempty_not_zero; exact Hi | exact Hi | exact Hsv].
Qed.

Lemma createReleaseServiceInstalls_NoDup_witness :
  count_rows 10 1
    (service_install (store_of (createReleaseServiceInstalls user_api (Ids [10; 11])
                                  (release_id 9) fleet))) = 1%nat /\
  count_rows 11 1
    (service_install (store_of (createReleaseServiceInstalls user_api (Ids [10; 11])
                                  (release_id 9) fleet))) = 1%nat.
Proof.
  assert (H1 : NoDup (service_install fleet)).
  { simpl. repeat constructor; simpl; intuition discriminate. }
  assert (H2 : NoDup (resolved_ids fleet (Ids [10; 11]))).
  { simpl. repeat constructor; simpl; intuition discriminate. }
  assert (H3 : NoDup (release_service_ids fleet (release_id 9))).
  { simpl. repeat constructor; simpl; intuition discriminate. }
  destruct (createReleaseServiceInstalls_NoDup user_api (Ids [10; 11]) (release_id 9) fleet
              H1 H2 H3) as [_ H].
  split; apply H; simpl; auto.
Defined.

Lemma install_device_matches_resolved (s : Store) (sel : DeviceSelector) (si : ServiceInstall.t) :
  install_device_matches s sel si = mem (ServiceInstall.device si) (resolved_ids s sel).
Proof.
  destruct sel as [ids|f]; simpl; [reflexivity|].
  apply eq_true_iff_eq. rewrite existsb_exists, mem_In, in_map_iff. split.
  - intros (d & Hd & H). apply andb_true_iff in H. destruct H as [E Hf].
    apply Z.eqb_eq in E. exists d. split; [exact E|]. apply filter_In. tauto.
  - intros (d & E & Hd). apply filter_In in Hd. exists d. split; [tauto|].
    apply andb_true_iff. split; [apply Z.eqb_eq; exact E | tauto].
Qed.

Lemma missing_selector (s : Store) (f : FilterObj) (rf : Filter) :
  missing s (Obj f) rf = missing s (Ids (resolved_ids s (Obj f))) rf.
Proof.
  unfold missing.
  destruct (resolved_ids s (Obj f)) as [|i ids] eqn:E.
  - reflexivity.
  - cbn [length_is_zero resolved_ids].
    replace (installed s (Obj f) (release_service_ids s rf))
      with (installed s (Ids (i :: ids)) (release_service_ids s rf)); [reflexivity|].
    unfold installed. apply filter_ext. intros si.
    rewrite !install_device_matches_resolved, E. reflexivity.
Qed.

(** X3. Passing a filter object is passing the ids it resolves to: the run
    with the filter leaves the same store and issues the same posts, in the
    same order, as the run with the resolved id array; the filter run only
    adds the device read in front (and, when no device matches, the reads
    that the empty array would have skipped). *)
Theorem filter_selector_is_its_ids (api : PinejsClient) (f : FilterObj) (rf : Filter)
    (s : Store) :
  let by_filter := createReleaseServiceInstalls api (Obj f) rf s in
  let by_ids := createReleaseServiceInstalls api (Ids (resolved_ids s (Obj f))) rf s in
  store_of by_filter = store_of by_ids /\
  filter is_post (calls by_filter) = filter is_post (calls by_ids) /\
  (resolved_ids s (Obj f) <> [] -> calls by_filter = Get api r_device :: calls by_ids).
Proof.
  cbv zeta. rewrite !create_store, !create_calls, <- missing_selector.
  split; [reflexivity|]. split.
  - rewrite !filter_app. f_equal.
    rewrite !filter_none; [reflexivity | |];
      intros c Hc; apply reads_are_gets in Hc; tauto.
  - intros Hne. unfold reads. destruct (resolved_ids s (Obj f)); [congruence | reflexivity].
Qed.

Lemma filter_selector_is_its_ids_witness :
  resolved_ids fleet (Obj [belongs_to__application_in [1]]) = [10; 11] /\
  calls (createReleaseServiceInstalls user_api (Obj [belongs_to__application_in [1]])
           (release_id 9) fleet) =
  Get user_api r_device ::
  calls (createReleaseServiceInstalls user_api (Ids [10; 11]) (release_id 9) fleet).
Proof.
  split; [reflexivity|].
  apply (proj2 (proj2 (filter_selector_is_its_ids user_api [belongs_to__application_in [1]]
                         (release_id 9) fleet))).
  discriminate.
Defined.

Lemma filter_all {A} (p : A -> bool) (l : list A) :
  (forall x, In x l -> p x = true) -> filter p l = l.
Proof.
  induction l as [|x l IH]; simpl; intros H; [reflexivity|].
  rewrite H by auto. f_equal. apply IH. auto.
Qed.

(** What a run posts for devices that have no row yet. *)
Lemma missing_fresh (s : Store) (ids : list Z) (rf : Filter) :
  (forall row, In row (service_install s) -> ~ In (ServiceInstall.device row) ids) ->
  missing s (Ids ids) rf =
  flat_map (fun i => map (ServiceInstall.mk i) (release_service_ids s rf)) ids.
Proof.
  intros Hfresh. unfold missing.
  assert (Hnone : installed s (Ids ids) (release_service_ids s rf) = []).
  { unfold installed. apply filter_none. intros row Hrow. apply andb_false_iff. left.
    simpl. apply mem_false. auto. }
  rewrite Hnone. destruct ids as [|i ids]; [reflexivity|]. cbn [length_is_zero resolved_ids].
  apply flat_map_ext. intros j. unfold groupBy. simpl. unfold difference.
  rewrite filter_all; [reflexivity|]. intros; reflexivity.
Qed.

(** X4. A device that was just created, and so has no row yet, gets one row
    per service of the release its application is pinned to, in the order of
    the service read, posted with [permissions.root] in the transaction of
    the hook; the rows that were there stay in front. *)
Theorem created_device_gets_the_application_services (api : PinejsClient) (tx : Z)
    (request : Request) (s : Store) (appId deviceId : Z) :
  Values.belongs_to__application (values request) = number appId ->
  (forall row, In row (service_install s) -> ServiceInstall.device row <> deviceId) ->
  let r := POST_device_POSTRUN api tx request (Some deviceId) s in
  let services := release_service_ids s (should_be_running_on__application_id appId) in
  service_install (store_of r) =
    service_install s ++ map (ServiceInstall.mk deviceId) services /\
  filter is_post (calls r) =
    map (fun sv => Post (mkApi tx root) (ServiceInstall.mk deviceId sv)) services.
Proof.
  intros Happ Hfresh r services.
  assert (Hr : r = createReleaseServiceInstalls (mkApi tx root) (Ids [deviceId])
                     (should_be_running_on__application_id appId) s).
  { unfold r, POST_device_POSTRUN. rewrite Happ. reflexivity. }
  assert (Hm : missing s (Ids [deviceId]) (should_be_running_on__application_id appId) =
               map (ServiceInstall.mk deviceId) services).
  { rewrite missing_fresh.
    - simpl. apply app_nil_r.
    - intros row Hrow [E|[]]. apply (Hfresh row Hrow). auto. }
  rewrite Hr, create_store, create_calls, Hm. split; [reflexivity|].
  rewrite filter_app, filter_none, map_map.
  - simpl. apply filter_all. intros c Hc. apply in_map_iff in Hc.
    destruct Hc as (sv & <- & _). reflexivity.
  - intros c Hc. apply reads_are_gets in Hc. tauto.
Qed.

Lemma created_device_gets_the_application_services_witness :
  service_install (store_of (POST_device_POSTRUN user_api 1 create_device (Some 30) fleet)) =
  service_install fleet ++ [ServiceInstall.mk 30 1; ServiceInstall.mk 30 2].
Proof.
  refine (proj1 (created_device_gets_the_application_services user_api 1 create_device
                   fleet 1 30 eq_refl _)).
  intros row [<-|[<-|[]]]; discriminate.
Defined.

Lemma unpinned_application_no_service (s : Store) (appId : Z) :
  unpinned_application s appId ->
  release_service_ids s (should_be_running_on__application_id appId) = [].
Proof.
  intros Hun. unfold release_service_ids. rewrite filter_none; [reflexivity|].
  intros sv _. unfold service_of_release.
  destruct (existsb _ (image s)) eqn:E; [|reflexivity]. exfalso.
  apply existsb_exists in E. destruct E as (i & _ & E).
  apply andb_true_iff in E. destruct E as [_ E].
  apply existsb_exists in E. destruct E as (ipr & _ & E).
  apply andb_true_iff in E. destruct E as [_ E].
  apply existsb_exists in E. destruct E as (r & _ & E).
  apply andb_true_iff in E. destruct E as [_ E]. simpl in E.
  apply existsb_exists in E. destruct E as (a & Ha & E).
  destruct (Application.should_be_running__release a) as [p|] eqn:Ep; [|discriminate].
  apply andb_true_iff in E. destruct E as [_ E]. apply Z.eqb_eq in E.
  rewrite (Hun a Ha E) in Ep. discriminate.
Qed.

(** X5. An application that has no release pin (or does not exist) gives
    [createAppServiceInstalls] nothing to install: for a non-empty array of
    devices the run is the service read alone, and the store is unchanged. *)
Theorem unpinned_application_installs_nothing (api : PinejsClient) (s : Store)
    (appId : Z) (deviceIds : list Z) :
  unpinned_application s appId ->
  deviceIds <> [] ->
  createAppServiceInstalls api appId deviceIds s = (tt, s, [Get api r_service]).
Proof.
  intros Hun Hne. unfold createAppServiceInstalls.
  rewrite createReleaseServiceInstalls_run.
  assert (Hm : missing s (Ids deviceIds) (should_be_running_on__application_id appId) = []).
  { apply missing_nil. intros i sv _ Hsv.
    rewrite unpinned_application_no_service in Hsv by exact Hun. contradiction. }
  rewrite Hm, app_nil_r, with_service_install_same. unfold reads.
  rewrite unpinned_application_no_service by exact Hun.
  destruct deviceIds; [congruence | reflexivity].
Qed.

Lemma unpinned_application_installs_nothing_witness :
  unpinned_application fleet 3 /\
  createAppServiceInstalls user_api 3 [10] fleet = (tt, fleet, [Get user_api r_service]).
Proof.
  assert (H : unpinned_application fleet 3).
  { intros a [<-|[<-|[]]]; simpl; intros; discriminate. }
  split; [exact H|].
  apply (unpinned_application_installs_nothing user_api fleet 3 [10] H). discriminate.
Defined.

Lemma existsb_ext_in {A} (p q : A -> bool) (l : list A) :
  (forall x, In x l -> p x = q x) -> existsb p l = existsb q l.
Proof.
  induction l as [|x l IH]; simpl; intros H; [reflexivity|].
  rewrite H by auto. f_equal. apply IH. auto.
Qed.

(** Two release filters that match the same releases give the same run. *)
Lemma createReleaseServiceInstalls_filter_ext (api : PinejsClient) (sel : DeviceSelector)
    (rf1 rf2 : Filter) (s : Store) :
  (forall r, In r (release s) -> eval_release_filter s rf1 r = eval_release_filter s rf2 r) ->
  createReleaseServiceInstalls api sel rf1 s = createReleaseServiceInstalls api sel rf2 s.
Proof.
  intros H.
  assert (Hs : release_service_ids s rf1 = release_service_ids s rf2).
  { unfold release_service_ids. f_equal. apply filter_ext. intros sv.
    unfold service_of_release. apply existsb_ext_in. intros i _. f_equal.
    apply existsb_ext_in. intros ipr _. f_equal.
    apply existsb_ext_in. intros r Hr. f_equal. apply H. exact Hr. }
  rewrite !createReleaseServiceInstalls_run. unfold missing, reads. rewrite Hs. reflexivity.
Qed.

(** X6. Reconciling against an application's default is reconciling against
    the release the application is pinned to: when the application with id
    [appId] exists and each of its rows is pinned to release [pin],
    [createAppServiceInstalls] for [appId] is [createReleaseServiceInstalls]
    with the filter [{ id: pin }]: same calls, same rows. *)
Theorem application_default_is_its_pin (api : PinejsClient) (s : Store)
    (appId pin : Z) (deviceIds : list Z) :
  (exists a, In a (application s) /\ Application.id a = appId) ->
  (forall a, In a (application s) -> Application.id a = appId ->
             Application.should_be_running__release a = Some pin) ->
  createAppServiceInstalls api appId deviceIds s =
  createReleaseServiceInstalls api (Ids deviceIds) (release_id pin) s.
Proof.
  intros (a0 & Ha0 & Eid) Hpin. unfold createAppServiceInstalls.
  apply createReleaseServiceInstalls_filter_ext. intros r _. simpl.
  destruct (Z.eqb_spec (Release.id r) pin) as [E|E].
  - apply existsb_exists. exists a0. split; [exact Ha0|].
    rewrite (Hpin a0 Ha0 Eid), E, Eid, !Z.eqb_refl. reflexivity.
  - destruct (existsb _ (application s)) eqn:Ex; [|reflexivity]. exfalso.
    apply existsb_exists in Ex. destruct Ex as (a & Ha & Ex).
    destruct (Application.should_be_running__release a) as [p|] eqn:Ep; [|discriminate].
    apply andb_true_iff in Ex. destruct Ex as [E1 E2]. apply Z.eqb_eq in E1, E2.
    rewrite (Hpin a Ha E2) in Ep. congruence.
Qed.

Lemma application_default_is_its_pin_witness :
  createAppServiceInstalls user_api 1 [10; 11] fleet =
  createReleaseServiceInstalls user_api (Ids [10; 11]) (release_id 9) fleet.
Proof.
  apply application_default_is_its_pin.
  - exists (Application.mk 1 (Some 9)). simpl. auto.
  - intros a [<-|[<-|[]]]; simpl; intros; (reflexivity || discriminate).
Defined.

(** ** Replaying a hook *)

Lemma replay_safe_ret : replay_safe (ret tt).
Proof. intros s. split; [reflexivity | intros c []]. Qed.

(** A run on a store that has every row it asks for changes nothing. *)
Lemma create_all_present (api : PinejsClient) (sel : DeviceSelector) (rf : Filter) (s : Store) :
  (forall i sv, In i (resolved_ids s sel) -> In sv (release_service_ids s rf) ->
                In (ServiceInstall.mk i sv) (service_install s)) ->
  store_of (createReleaseServiceInstalls api sel rf s) = s /\
  forall c, In c (calls (createReleaseServiceInstalls api sel rf s)) -> is_post c = false.
Proof.
  intros H. rewrite create_store, create_calls, (missing_nil s sel rf H), !app_nil_r.
  split; [apply with_service_install_same|].
  intros c Hc. apply reads_are_gets in Hc. tauto.
Qed.

Lemma replay_safe_create (api : PinejsClient) (sel : DeviceSelector) (rf : Filter) :
  replay_safe (createReleaseServiceInstalls api sel rf).
Proof.
  intros s. apply create_all_present. intros i sv Hi Hsv.
  rewrite create_store in *.
  rewrite (resolved_ids_same s) in Hi by apply same_tables_with.
  rewrite (release_service_ids_same s) in Hsv by apply same_tables_with.
  cbn [service_install with_service_install].
  apply missing_complete; [eapply nonempty_not_zero; exact Hi | exact Hi | exact Hsv].
Qed.

Lemma forM_all_present (api : PinejsClient) (ids_of : Z -> list Z) (apps : list Z) (s : Store) :
  (forall appId i sv, In appId apps -> In i (ids_of appId) ->
     In sv (release_service_ids s (should_be_running_on__application_id appId)) ->
     In (ServiceInstall.mk i sv) (service_install s)) ->
  let r := forM_ apps (fun appId => createAppServiceInstalls api appId (ids_of appId)) s in
  store_of r = s /\ forall c, In c (calls r) -> is_post c = false.
Proof.
  induction apps as [|appId apps IH]; intros H; cbv zeta.
  - split; [reflexivity | intros c []].
  - cbn [forM_]. rewrite bind_store, bind_calls.
    assert (H0 : forall i sv, In i (resolved_ids s (Ids (ids_of appId))) ->
              In sv (release_service_ids s (should_be_running_on__application_id appId)) ->
              In (ServiceInstall.mk i sv) (service_install s))
      by (intros i sv Hi Hsv; apply (H appId); [left; reflexivity | exact Hi | exact Hsv]).
    destruct (create_all_present api (Ids (ids_of appId))
                (should_be_running_on__application_id appId) s H0) as [E1 P1].
    change (createReleaseServiceInstalls api (Ids (ids_of appId))
              (should_be_running_on__application_id appId) s)
      with (createAppServiceInstalls api appId (ids_of appId) s) in E1, P1.
    rewrite E1.
    assert (H' : forall a i sv, In a apps -> In i (ids_of a) ->
              In sv (release_service_ids s (should_be_running_on__application_id a)) ->
              In (ServiceInstall.mk i sv) (service_install s))
      by (intros a i sv Ha; apply H; right; exact Ha).
    specialize (IH H'). cbv zeta in IH. destruct IH as [E2 P2].
    split; [exact E2|]. intros c Hc. apply in_app_or in Hc.
    destruct Hc as [Hc|Hc]; [apply P1; exact Hc | apply P2; exact Hc].
Qed.

(** X7. Every POSTRUN hook can be replayed: run a second time with the same
    request on the store the first run left, it posts nothing and leaves the
    store as it is. *)
Theorem postrun_hooks_replay_safe :
  (forall api request, replay_safe (PATCH_application_POSTRUN api request)) /\
  (forall api tx request created, replay_safe (POST_device_POSTRUN api tx request created)) /\
  (forall api request, replay_safe (PATCH_device_POSTRUN api request)) /\
  (forall api tx request created,
      replay_safe (POST_device_POSTRUN_supervisor api tx request created)) /\
  (forall api request, replay_safe (PATCH_device_POSTRUN_supervisor api request)).
Proof.
  split; [|split; [|split; [|split]]].
  - intros api request. unfold PATCH_application_POSTRUN.
    destruct (Values.should_be_running__release _); try apply replay_safe_ret.
    destruct (negb _); [apply replay_safe_create | apply replay_safe_ret].
  - intros api tx request created. unfold POST_device_POSTRUN, createAppServiceInstalls.
    destruct created; [|apply replay_safe_ret].
    destruct (Values.belongs_to__application _); try apply replay_safe_ret.
    apply replay_safe_create.
  - intros api request.
    destruct (Values.should_be_running__release (values request)) as [| |pin] eqn:Hpin.
    + unfold PATCH_device_POSTRUN. rewrite Hpin. apply replay_safe_ret.
    + destruct (affectedIds request) as [|i0 ids0] eqn:Haff.
      { unfold PATCH_device_POSTRUN. rewrite Hpin, Haff. apply replay_safe_ret. }
      assert (Hne : affectedIds request <> []) by congruence.
      intros s.
      destruct (PATCH_device_POSTRUN_null_run api request s Hpin Hne) as (Hr1 & Hdev & Happs).
      set (r1 := PATCH_device_POSTRUN api request s) in *.
      cbv zeta in Hr1, Hdev, Happs.
      set (devices := filter (eval_filter [id_in (affectedIds request)]) (device s)) in *.
      set (apps := map fst (groupBy Device.belongs_to__application devices)) in *.
      set (ids_of := fun appId => map Device.id
             (filter (fun d => appId =? Device.belongs_to__application d) devices)) in *.
      destruct (forM_createAppServiceInstalls api ids_of s apps s (same_tables_refl s))
        as (T & _ & C & _).
      assert (Es : store_of r1 =
                   store_of (forM_ apps (fun appId =>
                     createAppServiceInstalls api appId (ids_of appId)) s)).
      { rewrite Hr1, bind_get_device. reflexivity. }
      rewrite <- Es in T, C.
      destruct (PATCH_device_POSTRUN_null_run api request (store_of r1) Hpin Hne) as (Hr2 & _).
      cbv zeta in Hr2. destruct T as (Td & T'). rewrite Td in Hr2.
      fold devices apps ids_of in Hr2. rewrite Hr2, bind_get_device.
      unfold store_of at 1 4, calls at 1. cbn [fst snd].
      assert (Hall : forall appId i sv, In appId apps -> In i (ids_of appId) ->
                In sv (release_service_ids (store_of r1)
                         (should_be_running_on__application_id appId)) ->
                In (ServiceInstall.mk i sv) (service_install (store_of r1))).
      { intros appId i sv Ha Hi Hsv.
        rewrite (release_service_ids_same s) in Hsv by (split; [exact Td | exact T']).
        eapply C; eassumption. }
      destruct (forM_all_present api ids_of apps (store_of r1) Hall) as [E2 P2].
      split; [exact E2|]. intros c [<-|Hc]; [reflexivity | auto].
    + unfold PATCH_device_POSTRUN. rewrite Hpin.
      destruct (negb _); [apply replay_safe_create | apply replay_safe_ret].
  - intros api tx request created. unfold POST_device_POSTRUN_supervisor.
    destruct created; [|apply replay_safe_ret].
    destruct (Values.should_be_managed_by__release _); try apply replay_safe_ret.
    apply replay_safe_create.
  - intros api request. unfold PATCH_device_POSTRUN_supervisor.
    destruct (Values.should_be_managed_by__release _); try apply replay_safe_ret.
    destruct (negb _); [apply replay_safe_create | apply replay_safe_ret].
Qed.

(** ** Idle hooks and the purge *)

(** X8. A hook whose mutation gives it nothing to do issues no call at all
    and leaves the store alone: the PATCH hooks when no id is affected or
    the field they watch is absent from the request (for the application pin
    and the supervisor pin: absent or null), the POST device hooks when no
    device was created.  The PRERUN hook of PATCH device, with a non-null
    application that addresses no device, issues its read of the affected
    ids and nothing else: no delete, no post. *)
Theorem idle_hooks_do_nothing :
  (forall api request s,
      not_nullish (Values.should_be_running__release (values request)) = false \/
      affectedIds request = [] ->
      PATCH_application_POSTRUN api request s = (tt, s, [])) /\
  (forall api tx request s,
      POST_device_POSTRUN api tx request None s = (tt, s, []) /\
      POST_device_POSTRUN_supervisor api tx request None s = (tt, s, [])) /\
  (forall api tx request deviceId s,
      not_nullish (Values.should_be_managed_by__release (values request)) = false ->
      POST_device_POSTRUN_supervisor api tx request (Some deviceId) s = (tt, s, [])) /\
  (forall api request s,
      not_nullish (Values.belongs_to__application (values request)) = false ->
      PATCH_device_PRERUN api request s = (tt, s, [])) /\
  (forall api request s appId,
      Values.belongs_to__application (values request) = number appId ->
      filter (eval_filter (odataQuery request)) (device s) = [] ->
      PATCH_device_PRERUN api request s = (tt, s, [Get api r_device])) /\
  (forall api request s,
      Values.should_be_running__release (values request) = undefined \/
      affectedIds request = [] ->
      PATCH_device_POSTRUN api request s = (tt, s, [])) /\
  (forall api request s,
      not_nullish (Values.should_be_managed_by__release (values request)) = false \/
      affectedIds request = [] ->
      PATCH_device_POSTRUN_supervisor api request s = (tt, s, [])).
Proof.
  split; [|split; [|split; [|split; [|split; [|split]]]]].
  - intros api request s H. unfold PATCH_application_POSTRUN.
    destruct (Values.should_be_running__release (values request)); try reflexivity.
    destruct H as [H|H]; [discriminate | rewrite H; reflexivity].
  - intros. split; reflexivity.
  - intros api tx request deviceId s H. unfold POST_device_POSTRUN_supervisor.
    destruct (Values.should_be_managed_by__release (values request));
      [reflexivity | reflexivity | discriminate].
  - intros api request s H. unfold PATCH_device_PRERUN.
    destruct (Values.belongs_to__application (values request));
      [reflexivity | reflexivity | discriminate].
  - intros api request s appId Happ Hnone. unfold PATCH_device_PRERUN, getAffectedIds.
    rewrite Happ. rewrite bind_run, bind_get_device.
    unfold result at 1 2 3, store_of at 1 2 3, calls at 1 2. cbn [fst snd].
    rewrite Hnone. reflexivity.
  - intros api request s H. unfold PATCH_device_POSTRUN.
    destruct (Values.should_be_running__release (values request));
      try reflexivity; (destruct H as [H|H]; [discriminate | rewrite H; reflexivity]).
  - intros api request s H. unfold PATCH_device_POSTRUN_supervisor.
    destruct (Values.should_be_managed_by__release (values request)); try reflexivity.
    destruct H as [H|H]; [discriminate | rewrite H; reflexivity].
Qed.

Lemma idle_hooks_do_nothing_witness :
  PATCH_device_PRERUN user_api
    (mkRequest (Values.mk (number 2) undefined undefined) [] [id_in [99]]) fleet =
  (tt, fleet, [Get user_api r_device]) /\
  PATCH_device_POSTRUN user_api move_devices fleet = (tt, fleet, []).
Proof.
  destruct idle_hooks_do_nothing as (_ & _ & _ & _ & H5 & H6 & _). split.
  - apply (H5 user_api _ fleet 2); reflexivity.
  - apply H6. left. reflexivity.
Defined.

Lemma filter_idem {A} (p : A -> bool) (l : list A) : filter p (filter p l) = filter p l.
Proof.
  induction l as [|x l IH]; simpl; [reflexivity|].
  destruct (p x) eqn:E; simpl; [rewrite E, IH|]; auto.
Qed.

(** X9. The purge only removes rows, and only rows of the devices it was
    given: the other tables are untouched, every row it leaves was there
    before, every row of a device outside [deviceIds] is kept; and purging
    the same devices again removes nothing more. *)
Theorem purge_is_confined (api : PinejsClient) (deviceIds : list Z) (s : Store) :
  let purged := store_of (deleteServiceInstallsForCurrentApp api deviceIds s) in
  same_tables s purged /\
  (forall row, In row (service_install purged) -> In row (service_install s)) /\
  (forall row, In row (service_install s) ->
               ~ In (ServiceInstall.device row) deviceIds ->
               In row (service_install purged)) /\
  calls (deleteServiceInstallsForCurrentApp api deviceIds s) =
    [Delete api r_service_install] /\
  store_of (deleteServiceInstallsForCurrentApp api deviceIds purged) = purged.
Proof.
  cbv zeta. split; [apply same_tables_with|]. split; [|split; [|split]].
  - intros row H. apply purge_store in H. tauto.
  - intros row H Hn. apply purge_store. split; [exact H|].
    unfold current_app_install. apply andb_false_iff. left. apply mem_false. exact Hn.
  - reflexivity.
  - unfold deleteServiceInstallsForCurrentApp, delete_service_install, store_of.
    cbn [fst snd]. rewrite with_service_install_twice.
    cbn [service_install with_service_install]. f_equal.
    etransitivity; [|apply filter_idem].
    apply filter_ext. intros row. reflexivity.
Qed.

(** X10. For a batch whose devices all belong to one application the purge
    does what its name says: it removes exactly the rows of the batch
    devices whose service belongs to that application. *)
Theorem purge_of_one_application (api : PinejsClient) (deviceIds : list Z) (s : Store)
    (appId : Z) :
  (forall d, In d (device s) -> In (Device.id d) deviceIds ->
             Device.belongs_to__application d = appId) ->
  (exists d, In d (device s) /\ In (Device.id d) deviceIds) ->
  (exists a, In a (application s) /\ Application.id a = appId) ->
  forall row,
    In row (service_install (store_of (deleteServiceInstallsForCurrentApp api deviceIds s))) <->
    In row (service_install s) /\
    ~ (In (ServiceInstall.device row) deviceIds /\
       exists sv, In sv (service s) /\
                  Service.id sv = ServiceInstall.installs__service row /\
                  Service.application sv = appId).
Proof.
  intros Hone (d0 & Hd0 & Hin0) (a0 & Ha0 & Ea0) row.
  rewrite purge_store.
  assert (H : current_app_install s deviceIds row = true <->
              In (ServiceInstall.device row) deviceIds /\
              exists sv, In sv (service s) /\
                         Service.id sv = ServiceInstall.installs__service row /\
                         Service.application sv = appId).
  { rewrite current_app_install_true. split.
    - intros (Hd & sv & a & d & Hsv & E1 & Ha & E2 & Hdv & E3 & Hin).
      split; [exact Hd|]. exists sv. split; [exact Hsv|]. split; [exact E1|].
      rewrite <- E2, <- E3. apply Hone; assumption.
    - intros (Hd & sv & Hsv & E1 & E2). split; [exact Hd|].
      exists sv, a0, d0. repeat split; try assumption; try congruence.
      rewrite (Hone d0 Hd0 Hin0). congruence. }
  rewrite <- H. destruct (current_app_install s deviceIds row); intuition congruence.
Qed.

Lemma purge_of_one_application_witness :
  In (ServiceInstall.mk 10 3)
     (service_install (store_of (deleteServiceInstallsForCurrentApp user_api [10; 11] fleet))) /\
  ~ In (ServiceInstall.mk 11 1)
       (service_install (store_of (deleteServiceInstallsForCurrentApp user_api [10; 11] fleet))).
Proof.
  assert (H := purge_of_one_application user_api [10; 11] fleet 1).
  assert (H1 : forall d, In d (device fleet) -> In (Device.id d) [10; 11] ->
                         Device.belongs_to__application d = 1).
  { intros d [<-|[<-|[<-|[]]]]; simpl; intros; auto. intuition discriminate. }
  assert (H2 : exists d, In d (device fleet) /\ In (Device.id d) [10; 11]).
  { exists (Device.mk 10 1 None (Some 7) None). simpl. auto. }
  assert (H3 : exists a, In a (application fleet) /\ Application.id a = 1).
  { exists (Application.mk 1 (Some 9)). simpl. auto. }
  specialize (H H1 H2 H3). split.
  - apply H. split; [simpl; auto|].
    intros (_ & sv & Hsv & E1 & E2). simpl in Hsv.
    destruct Hsv as [<-|[<-|[<-|[]]]]; simpl in *; discriminate.
  - intros Hin. apply H in Hin. destruct Hin as [_ Hn]. apply Hn.
    split; [simpl; auto|]. exists (Service.mk 1 1). simpl. auto.
Defined.

(** ** Migration outcome and commit-time notifications *)

(** The PRERUN hook of a migration: the read of the affected ids, the purge,
    then the reconciliation for the destination. *)
Lemma PATCH_device_PRERUN_run (api : PinejsClient) (request : Request) (s : Store)
    (appId : Z) :
  Values.belongs_to__application (values request) = number appId ->
  let ids := map Device.id (filter (eval_filter (odataQuery request)) (device s)) in
  ids <> [] ->
  let purged := store_of (deleteServiceInstallsForCurrentApp api ids s) in
  let creates := createAppServiceInstalls api appId ids purged in
  PATCH_device_PRERUN api request s =
  (tt, store_of creates, Get api r_device :: Delete api r_service_install :: calls creates).
Proof.
  intros Happ ids Hids purged creates.
  unfold PATCH_device_PRERUN. rewrite Happ. cbv beta iota. unfold getAffectedIds.
  rewrite (bind_read _ _ s ids [Get api r_device]); [|reflexivity].
  assert (Hne : negb (is_empty ids) = true) by (destruct ids; [congruence | reflexivity]).
  unfold result at 1, store_of at 1, calls at 1. cbn [fst snd].
  rewrite Hne, bind_run. unfold creates, purged.
  destruct (createAppServiceInstalls api appId ids _) as [[[] s2] c2]. reflexivity.
Qed.

(** X11. Migration correctness: after the PRERUN hook of a PATCH on device
    that carries a non-null application and addresses at least one device,
    every addressed device has a row for every service of the release the
    destination application is pinned to; a row that pairs an addressed
    device with a service of the application the device still belongs to
    remains only if that service is also one of the destination's; and the
    rows of the devices that are not addressed are exactly those of
    before. *)
Theorem migration_installs_the_destination (api : PinejsClient) (request : Request)
    (s : Store) (appId : Z) :
  Values.belongs_to__application (values request) = number appId ->
  let ids := map Device.id (filter (eval_filter (odataQuery request)) (device s)) in
  ids <> [] ->
  let final := service_install (store_of (PATCH_device_PRERUN api request s)) in
  let destination := release_service_ids s (should_be_running_on__application_id appId) in
  (forall i sv, In i ids -> In sv destination -> In (ServiceInstall.mk i sv) final) /\
  (forall row d sv a,
      In row final ->
      In d (device s) -> Device.id d = ServiceInstall.device row -> In (Device.id d) ids ->
      In sv (service s) -> Service.id sv = ServiceInstall.installs__service row ->
      In a (application s) -> Application.id a = Service.application sv ->
      Device.belongs_to__application d = Application.id a ->
      In (ServiceInstall.installs__service row) destination) /\
  (forall row, ~ In (ServiceInstall.device row) ids ->
               (In row final <-> In row (service_install s))).
Proof.
  intros Happ ids Hids final destination.
  pose proof (PATCH_device_PRERUN_run api request s appId Happ Hids) as Hr.
  cbv zeta in Hr. fold ids in Hr.
  set (purged := store_of (deleteServiceInstallsForCurrentApp api ids s)) in *.
  assert (Hfinal : final = service_install purged ++
            missing purged (Ids ids) (should_be_running_on__application_id appId)).
  { unfold final. rewrite Hr. unfold store_of at 1. cbn [fst snd].
    unfold createAppServiceInstalls. rewrite create_store. reflexivity. }
  assert (Hdest : release_service_ids purged (should_be_running_on__application_id appId) =
                  destination).
  { apply release_service_ids_same. apply same_tables_with. }
  rewrite Hfinal. split; [|split].
  - intros i sv Hi Hsv. apply missing_complete.
    + destruct ids; [contradiction | reflexivity].
    + exact Hi.
    + rewrite Hdest. exact Hsv.
  - intros row d sv a Hrow Hd Eid Hin Hsv Esv Ha Ea Eapp.
    apply in_app_or in Hrow. destruct Hrow as [Hrow|Hrow].
    + exfalso. apply purge_store in Hrow. destruct Hrow as [_ Hf].
      assert (Ht : current_app_install s ids row = true).
      { apply current_app_install_true. split; [rewrite <- Eid; exact Hin|].
        exists sv, a, d. tauto. }
      congruence.
    + apply missing_sound in Hrow. destruct Hrow as (_ & H & _).
      rewrite Hdest in H. exact H.
  - intros row Hout. rewrite in_app_iff. split.
    + intros [Hrow|Hrow].
      * apply purge_store in Hrow. tauto.
      * apply missing_sound in Hrow. destruct Hrow as (H & _). contradiction.
    + intros Hrow. left. apply purge_store. split; [exact Hrow|].
      unfold current_app_install. apply andb_false_iff. left. apply mem_false. exact Hout.
Qed.

Lemma migration_installs_the_destination_witness :
  service_install (store_of (PATCH_device_PRERUN user_api move_devices fleet)) =
    [ServiceInstall.mk 11 1; ServiceInstall.mk 10 3; ServiceInstall.mk 20 3] /\
  In (ServiceInstall.mk 10 3)
     (service_install (store_of (PATCH_device_PRERUN user_api move_devices fleet))).
Proof.
  split; [reflexivity|].
  destruct (migration_installs_the_destination user_api move_devices fleet 2 eq_refl)
    as (H & _); [discriminate|].
  apply H; simpl; auto.
Defined.

Lemma emit_end_app (Error : Type) (l1 l2 : list (Listener Error)) (o : Outside Error) :
  emit_end Error (l1 ++ l2) o =
  (fst (emit_end Error l1 o) ++ fst (emit_end Error l2 (snd (emit_end Error l1 o))),
   snd (emit_end Error l2 (snd (emit_end Error l1 o)))).
Proof.
  revert o. induction l1 as [|l l1 IH]; intros o; simpl.
  - destruct (emit_end Error l2 o). reflexivity.
  - destruct (l o) as [r o1]. rewrite IH.
    destruct (emit_end Error l1 o1) as [rs o2]. simpl.
    destruct (emit_end Error l2 o2) as [rs' o3]. simpl.
    destruct r; reflexivity.
Qed.

Lemma notifier_appends (Error : Type)
    (postDevices : list PostDevicesArgs -> PostDevicesArgs -> option Error)
    (request : Request) (on_end : list (Listener Error)) :
  PATCH_application_POSTRUN_notifier Error postDevices request on_end =
  on_end ++ PATCH_application_POSTRUN_notifier Error postDevices request [].
Proof.
  unfold PATCH_application_POSTRUN_notifier.
  destruct (Values.should_be_running__release (values request));
    try (rewrite app_nil_r; reflexivity).
  destruct (negb _); [reflexivity | rewrite app_nil_r; reflexivity].
Qed.

Lemma notifier_emit_one (Error : Type)
    (postDevices : list PostDevicesArgs -> PostDevicesArgs -> option Error)
    (request : Request) (o : Outside Error) :
  let e := emit_end Error (PATCH_application_POSTRUN_notifier Error postDevices request []) o in
  fst e = [] /\ posted (snd e) = posted o ++ update_request request.
Proof.
  unfold PATCH_application_POSTRUN_notifier, update_request.
  destruct (Values.should_be_running__release (values request));
    try (simpl; rewrite app_nil_r; auto).
  destruct (affectedIds request) as [|i ids]; simpl; [rewrite app_nil_r; auto|].
  unfold notify_updates.
  destruct (postDevices _ _); simpl; auto.
Qed.

(** X12. However many application pins a transaction carries, and whatever
    the device proxy answers, committing it raises no error: the listeners
    the notifier hook registered send one request per pin that was non-null
    with an affected application, in the order of the pins, and none of
    their promises rejects. *)
Theorem notifications_never_fail_a_commit (Error : Type)
    (postDevices : list PostDevicesArgs -> PostDevicesArgs -> option Error)
    (requests : list Request) (o : Outside Error) :
  let on_end :=
    fold_left (fun listeners request =>
                 PATCH_application_POSTRUN_notifier Error postDevices request listeners)
              requests [] in
  fst (emit_end Error on_end o) = [] /\
  posted (snd (emit_end Error on_end o)) = posted o ++ flat_map update_request requests.
Proof.
  cbv zeta.
  assert (G : forall reqs listeners o0,
    fst (emit_end Error listeners o0) = [] ->
    let on_end := fold_left (fun ls rq =>
                    PATCH_application_POSTRUN_notifier Error postDevices rq ls) reqs listeners in
    fst (emit_end Error on_end o0) = [] /\
    posted (snd (emit_end Error on_end o0)) =
      posted (snd (emit_end Error listeners o0)) ++ flat_map update_request reqs).
  { induction reqs as [|rq reqs IH]; intros listeners o0 H0; cbv zeta.
    - simpl. rewrite app_nil_r. auto.
    - cbn [fold_left flat_map].
      destruct (IH (PATCH_application_POSTRUN_notifier Error postDevices rq listeners) o0)
        as [E1 E2].
      + rewrite notifier_appends, emit_end_app. cbn [fst]. rewrite H0.
        apply (notifier_emit_one Error postDevices rq).
      + split; [exact E1|]. rewrite E2.
        rewrite (notifier_appends Error postDevices rq listeners), emit_end_app. cbn [snd].
        destruct (notifier_emit_one Error postDevices rq (snd (emit_end Error listeners o0)))
          as [_ E3].
        rewrite E3, app_assoc. reflexivity. }
  apply (G requests [] o). reflexivity.
Qed.


(** ** Facts on generateConfig *)

Module GenerateConfigFacts.
Import GenerateConfig.

Lemma get_set (k k' : string) (v : Json) (config : Config) :
  get k (set k' v config) = if String.eqb k k' then Some v else get k config.
Proof.
  induction config as [|[k0 v0] rest IH]; simpl.
  - destruct (String.eqb k k'); reflexivity.
  - destruct (String.eqb_spec k' k0) as [->|Hne]; simpl.
    + destruct (String.eqb k k0); reflexivity.
    + rewrite IH. destruct (String.eqb_spec k k0) as [->|Hne'].
      * destruct (String.eqb_spec k0 k'); [congruence | reflexivity].
      * reflexivity.
Qed.

Lemma get_assign (req : Request) (opts : list DeviceTypeOption) (config : Config)
    (k : string) :
  get k (fold_left (fun c opt => set (name opt) (param req (name opt)) c) opts config) =
  if existsb (fun opt => String.eqb k (name opt)) opts then Some (param req k)
  else get k config.
Proof.
  revert config. induction opts as [|opt opts IH]; intros config; simpl; [reflexivity|].
  rewrite IH, get_set.
  destruct (existsb _ opts); [destruct (String.eqb k (name opt)); reflexivity|].
  destruct (String.eqb_spec k (name opt)) as [->|]; reflexivity.
Qed.

(** X13. The options loop writes [req.param(name)] under the name of every
    option that is not a group, and of every option inside a group other
    than the network and the advanced group, one level deep; every other key
    of the configuration keeps its value. *)
Theorem assign_options_writes (req : Request) (opts : list DeviceTypeOption)
    (config : Config) (k : string) :
  let written :=
    exists opt, In opt opts /\
      ((isGroup opt <> Some true /\ name opt = k) \/
       (isGroup opt = Some true /\ name opt <> "network"%string /\
        name opt <> "advanced"%string /\
        exists child, In child (options opt) /\ name child = k)) in
  (written -> get k (assign_options req opts config) = Some (param req k)) /\
  (~ written -> get k (assign_options req opts config) = get k config).
Proof.
  cbv zeta. unfold assign_options. rewrite get_assign.
  assert (H : existsb (fun opt => String.eqb k (name opt)) (flat_map flatten opts) = true <->
              exists opt, In opt opts /\
                ((isGroup opt <> Some true /\ name opt = k) \/
                 (isGroup opt = Some true /\ name opt <> "network"%string /\
                  name opt <> "advanced"%string /\
                  exists child, In child (options opt) /\ name child = k))).
  { rewrite existsb_exists. split.
    - intros (o & Ho & E). apply String.eqb_eq in E. subst k.
      apply in_flat_map in Ho. destruct Ho as (opt & Hopt & Ho).
      exists opt. split; [exact Hopt|]. unfold flatten in Ho.
      destruct (isGroup opt) as [[|]|] eqn:G.
      + right. destruct (String.eqb_spec (name opt) "network"); [contradiction|].
        destruct (String.eqb_spec (name opt) "advanced"); [contradiction|].
        simpl in Ho. repeat split; try assumption. exists o. auto.
      + left. destruct Ho as [<-|[]]. split; [congruence | reflexivity].
      + left. destruct Ho as [<-|[]]. split; [congruence | reflexivity].
    - intros (opt & Hopt & [[G E]|(G & N1 & N2 & child & Hc & E)]).
      + exists opt. split; [|apply String.eqb_eq; auto].
        apply in_flat_map. exists opt. split; [exact Hopt|]. unfold flatten.
        destruct (isGroup opt) as [[|]|]; [congruence | left; reflexivity | left; reflexivity].
      + exists child. split; [|apply String.eqb_eq; auto].
        apply in_flat_map. exists opt. split; [exact Hopt|]. unfold flatten. rewrite G.
        destruct (String.eqb_spec (name opt) "network"); [contradiction|].
        destruct (String.eqb_spec (name opt) "advanced"); [contradiction|].
        exact Hc. }
  destruct (existsb _ _).
  - split; [reflexivity|]. intros Hn. elim Hn. apply H. reflexivity.
  - split; [|reflexivity]. intros Hw. apply H in Hw. discriminate.
Qed.

Lemma assign_options_writes_witness :
  get "disk" (assign_options sample_request sample_options []) = Some j_undefined /\
  get "wifiSsid" (assign_options sample_request sample_options [("wifiSsid"%string, j_null)]) =
    Some j_null.
Proof.
  split.
  - apply (proj1 (assign_options_writes sample_request sample_options [] "disk")).
    exists (mkOption "storage" (Some true) [mkOption "disk" None []]).
    split; [simpl; auto|]. right. repeat split; try discriminate.
    exists (mkOption "disk" None []). simpl. auto.
  - apply (proj2 (assign_options_writes sample_request sample_options
                    [("wifiSsid"%string, j_null)] "wifiSsid")).
    intros (opt & Hopt & H). simpl in Hopt.
    destruct Hopt as [<-|[<-|[<-|[]]]]; simpl in H;
      destruct H as [[H1 H2]|(H1 & H2 & H3 & child & Hc & E)];
      try discriminate; try congruence.
    simpl in Hc. destruct Hc as [<-|[]]. discriminate.
Defined.

Lemma endsWith_spec (s suffix : string) :
  endsWith s suffix = true <-> exists p, s = (p ++ suffix)%string.
Proof.
  induction s as [|c s IH]; cbn [endsWith].
  - rewrite orb_false_r, String.eqb_eq. split.
    + intros <-. exists ""%string. reflexivity.
    + intros (p & E). destruct p; simpl in E; [auto | discriminate].
  - rewrite orb_true_iff, String.eqb_eq, IH. split.
    + intros [<-|(p & ->)]; [exists ""%string | exists (String c p)]; reflexivity.
    + intros (p & E). destruct p as [|c' p]; simpl in E; [left; auto|].
      inversion E; subst. right. exists p. reflexivity.
Qed.

(** X14. [developmentMode] is decided by the name of the OS version alone:
    it is left out for no version and for 'latest', it is true exactly for a
    version that reads [p ++ ".dev"], and false for any other version. *)
Theorem developmentMode_spec (osVersion : option string) :
  (developmentMode osVersion = None <->
   osVersion = None \/ osVersion = Some "latest"%string) /\
  (developmentMode osVersion = Some true <->
   exists p, osVersion = Some (p ++ ".dev")%string) /\
  (developmentMode osVersion = Some false <->
   exists v, osVersion = Some v /\ v <> "latest"%string /\
             forall p, v <> (p ++ ".dev")%string).
Proof.
  unfold developmentMode. destruct osVersion as [v|].
  - destruct (String.eqb_spec v "latest") as [->|Hne].
    + split; [|split].
      * split; auto.
      * split; [discriminate|]. intros (p & E). injection E as E.
        assert (H : endsWith "latest" ".dev" = true)
          by (apply endsWith_spec; exists p; exact E).
        discriminate.
      * split; [discriminate|]. intros (v & E & Hn & _). injection E as E. congruence.
    + split; [|split].
      * split; [discriminate|]. intros [H|H]; [discriminate | congruence].
      * split.
        -- intros H. injection H as H'. apply endsWith_spec in H'.
           destruct H' as (p & Hp). exists p. rewrite Hp. reflexivity.
        -- intros (p & E). injection E as E. f_equal. apply endsWith_spec.
           exists p. exact E.
      * split.
        -- intros H. injection H as H'. exists v. split; [reflexivity|]. split; [exact Hne|].
           intros p E.
           assert (Ht : endsWith v ".dev" = true) by (apply endsWith_spec; exists p; exact E).
           congruence.
        -- intros (v' & E & _ & Hp). injection E as E. subst v'. f_equal.
           destruct (endsWith v ".dev") eqn:Ed; [|reflexivity].
           apply endsWith_spec in Ed. destruct Ed as (p & ->). elim (Hp p). reflexivity.
  - split; [|split].
    + split; auto.
    + split; [discriminate|]. intros (p & E). discriminate.
    + split; [discriminate|]. intros (v & E & _). discriminate.
Qed.


(** X15. The name of a provisioning key comes from the body before the
    query, and only a string counts: it is [s] exactly when the body field
    is the string [s], or the body field is null or undefined and the query
    field is the string [s].  A body field of another type hides the query
    field and leaves the key unnamed. *)
Theorem provisioning_key_name (E : Externals) (req : Request) (s : string) :
  key_name (apiKeyOptions E req) = Some s <->
  body req "provisioningKeyName" = j_string s \/
  (nullish (body req "provisioningKeyName") = true /\
   query req "provisioningKeyName" = j_string s).
Proof.
  unfold apiKeyOptions, coalesce. cbn [key_name].
  destruct (body req "provisioningKeyName") as [| |b|n|s0];
    destruct (query req "provisioningKeyName") as [| |b'|n'|s1]; simpl;
    split; intros H; try discriminate; try (destruct H as [H|[H1 H2]]; discriminate);
    try (injection H as ->; auto; fail);
    try (destruct H as [H|[H1 H2]]; try discriminate; congruence).
Qed.

Lemma apiKeyPromise_requests (E : Externals) (req : Request) (app : Application E)
    (osVersion : option string) (userPromise : User E + Err E) :
  apiKeyPromise E req app osVersion userPromise =
  (if wants_user_key E osVersion then
     match userPromise with
     | inl u => createUserApiKey E req (user_id E u)
     | inr err => inr err
     end
   else createProvisioningApiKey E req (app_id E app) (apiKeyOptions E req),
   if wants_user_key E osVersion then
     match userPromise with inl u => [user_id E u] | inr _ => [] end
   else [],
   if wants_user_key E osVersion then []
   else [(app_id E app, apiKeyOptions E req)]).
Proof.
  unfold apiKeyPromise. destruct (wants_user_key E osVersion); [|reflexivity].
  destruct userPromise; reflexivity.
Qed.

Lemma generateConfig_effects (E : Externals) (req : Request) (app : Application E)
    (slug : string) (opts : list DeviceTypeOption) (osVersion : option string) :
  unsupported E osVersion = false ->
  snd (generateConfig E req app slug opts osVersion) =
  mkEffects (snd (fst (apiKeyPromise E req app osVersion (getUser E req))))
            (snd (apiKeyPromise E req app osVersion (getUser E req)))
            (snd (selfSignedRootPromise E)).
Proof.
  intros H. unfold generateConfig. rewrite H.
  destruct (apiKeyPromise E req app osVersion (getUser E req)) as [[k uk] pk].
  destruct (selfSignedRootPromise E) as [ca cap]. cbn [fst snd].
  destruct (getUser E req) as [u|]; [destruct k as [key|]|]; try reflexivity.
  destruct (generated E req app slug u key osVersion); reflexivity.
Qed.

(** X16. Which key a run creates.  An unsupported version creates none.
    Otherwise a version that satisfies '<2.7.8' gets one user key, for the
    id of the signed-in user, and none when the user lookup fails; any other
    version, and no version at all, gets one provisioning key for the
    application, with the options read from the request, and this whether
    or not the user lookup fails.  A run never creates both kinds. *)
Theorem generateConfig_keys (E : Externals) (req : Request) (app : Application E)
    (slug : string) (opts : list DeviceTypeOption) (osVersion : option string) :
  let effects := snd (generateConfig E req app slug opts osVersion) in
  (unsupported E osVersion = true ->
   userKeys effects = [] /\ provisioningKeys effects = []) /\
  (unsupported E osVersion = false -> wants_user_key E osVersion = true ->
   provisioningKeys effects = [] /\
   userKeys effects =
     match getUser E req with inl u => [user_id E u] | inr _ => [] end) /\
  (unsupported E osVersion = false -> wants_user_key E osVersion = false ->
   userKeys effects = [] /\
   provisioningKeys effects = [(app_id E app, apiKeyOptions E req)]).
Proof.
  cbv zeta. split; [|split].
  - intros H. unfold generateConfig. rewrite H. split; reflexivity.
  - intros H W. rewrite generateConfig_effects, apiKeyPromise_requests, W by exact H.
    split; reflexivity.
  - intros H W. rewrite generateConfig_effects, apiKeyPromise_requests, W by exact H.
    split; reflexivity.
Qed.

Lemma generateConfig_keys_witness :
  provisioningKeys
    (snd (generateConfig sample_externals sample_request 7 "raspberrypi3" sample_options
            (Some "2.50.1"%string))) =
  [(7, mkApiKeyOptions (Some "fleet key"%string) None)].
Proof.
  destruct (generateConfig_keys sample_externals sample_request 7 "raspberrypi3"
              sample_options (Some "2.50.1"%string)) as (_ & _ & H).
  destruct (H eq_refl eq_refl) as [_ H2]. exact H2.
Defined.

(** X17. How a run ends.  An unsupported version is refused with the
    BadRequestError of the source before anything else is asked for: no key,
    no report.  Otherwise the run rejects with the error of the user lookup
    if that fails, else with the error of the key creation if that fails,
    else, the key being created, with the error [deviceConfig.generate]
    throws if it throws, and resolves in every other case: reading the root
    certificate never makes it fail. *)
Theorem generateConfig_outcome (E : Externals) (req : Request) (app : Application E)
    (slug : string) (opts : list DeviceTypeOption) (osVersion : option string) :
  let run := generateConfig E req app slug opts osVersion in
  (unsupported E osVersion = true ->
   run = (Rejected (BadRequestError
            "balenaOS versions <= 1.2.0 are no longer supported, please update"),
          mkEffects [] [] [])) /\
  (unsupported E osVersion = false ->
   match getUser E req with
   | inr err => fst run = Rejected (Thrown err)
   | inl u =>
       match fst (fst (apiKeyPromise E req app osVersion (inl u))) with
       | inr err => fst run = Rejected (Thrown err)
       | inl key =>
           match generated E req app slug u key osVersion with
           | inr err =>
               fst run = Rejected (Thrown err) /\
               snd run =
                 mkEffects (snd (fst (apiKeyPromise E req app osVersion (inl u))))
                           (snd (apiKeyPromise E req app osVersion (inl u)))
                           (snd (selfSignedRootPromise E))
           | inl _ => exists config, fst run = Resolved config
           end
       end
   end).
Proof.
  cbv zeta. split.
  - intros H. unfold generateConfig. rewrite H. reflexivity.
  - intros H. unfold generateConfig. cbv zeta. rewrite H.
    destruct (getUser E req) as [u|err].
    + destruct (apiKeyPromise E req app osVersion (inl u)) as [[k uk] pk].
      destruct (selfSignedRootPromise E) as [ca cap]. cbn [fst snd].
      destruct k as [key|err]; [|reflexivity].
      destruct (generated E req app slug u key osVersion); [eexists|split]; reflexivity.
    + destruct (apiKeyPromise E req app osVersion (inr err)) as [[k uk] pk].
      destruct (selfSignedRootPromise E) as [ca cap]. reflexivity.
Qed.

Lemma generateConfig_outcome_witness :
  generateConfig sample_externals sample_request 7 "raspberrypi3" sample_options
    (Some "1.0.0"%string) =
  (Rejected (BadRequestError
     "balenaOS versions <= 1.2.0 are no longer supported, please update"),
   mkEffects [] [] []) /\
  generateConfig sample_externals negative_interval_request 7 "raspberrypi3" sample_options
    (Some "2.50.1"%string) =
  (Rejected (Thrown (E := sample_externals) "appUpdatePollInterval must be positive"%string),
   mkEffects (E := sample_externals) [] [(7, mkApiKeyOptions None None)]
     [("EACCES"%string, "Self-signed root CA could not be read"%string)]).
Proof.
  split.
  - apply (proj1 (generateConfig_outcome sample_externals sample_request 7 "raspberrypi3"
                    sample_options (Some "1.0.0"%string))).
    reflexivity.
  - pose proof (proj2 (generateConfig_outcome sample_externals negative_interval_request 7
                         "raspberrypi3" sample_options (Some "2.50.1"%string)) eq_refl)
      as [H1 H2].
    apply injective_projections; [exact H1 | exact H2].
Defined.

(** X18. The root certificate.  The encoded certificate is there exactly
    when NODE_EXTRA_CA_CERTS names a file that [stat] finds and [readFile]
    reads; it is then the base64 of what was read.  At most one error is
    reported, with the message of the source, and never one whose code is
    ENOENT: it is the error of [stat], or else of [readFile]. *)
Theorem selfSignedRootPromise_spec (E : Externals) :
  (forall ca, fst (selfSignedRootPromise E) = Some ca <->
     exists caFile pem,
       NODE_EXTRA_CA_CERTS E = Some caFile /\ caFile <> ""%string /\
       stat E caFile = None /\ readFile E caFile = inl pem /\ ca = to_base64 E pem) /\
  (List.length (snd (selfSignedRootPromise E)) <= 1)%nat /\
  (forall err message, In (err, message) (snd (selfSignedRootPromise E)) ->
     message = "Self-signed root CA could not be read"%string /\
     code E err <> Some "ENOENT"%string /\
     exists caFile,
       NODE_EXTRA_CA_CERTS E = Some caFile /\ caFile <> ""%string /\
       (stat E caFile = Some err \/
        (stat E caFile = None /\ readFile E caFile = inr err))).
Proof.
  assert (R : forall err e m, In (e, m) (report_unless_missing E err) ->
            e = err /\ m = "Self-signed root CA could not be read"%string /\
            code E err <> Some "ENOENT"%string).
  { intros err e m. unfold report_unless_missing.
    destruct (code E err) as [c|] eqn:Ec.
    - destruct (String.eqb_spec c "ENOENT"); [intros []|].
      intros [H|[]]. inversion H; subst. repeat split. congruence.
    - intros [H|[]]. inversion H; subst. repeat split. discriminate. }
  assert (L : forall err, (List.length (report_unless_missing E err) <= 1)%nat).
  { intros err. unfold report_unless_missing.
    destruct (code E err) as [c|]; [destruct (String.eqb c "ENOENT")|]; simpl; lia. }
  unfold selfSignedRootPromise.
  destruct (NODE_EXTRA_CA_CERTS E) as [caFile|].
  2:{ simpl. split; [|split; [lia | intros ? ? []]].
      intros ca. split; [discriminate|]. intros (f & p & H & _). discriminate. }
  destruct (String.eqb_spec caFile "") as [->|Hne].
  { simpl. split; [|split; [lia | intros ? ? []]].
    intros ca. split; [discriminate|]. intros (f & p & H & Hn & _).
    injection H as <-. congruence. }
  destruct (stat E caFile) as [err|] eqn:Es.
  { cbn [fst snd]. split; [|split; [apply L|]].
    - intros ca. split; [discriminate|]. intros (f & p & H & _ & Hs & _).
      injection H as <-. congruence.
    - intros e m Hin. apply R in Hin. destruct Hin as (-> & -> & Hc).
      split; [reflexivity|]. split; [exact Hc|]. exists caFile. auto. }
  destruct (readFile E caFile) as [pem|err] eqn:Er; cbn [fst snd].
  - split; [|split; [simpl; lia | intros ? ? []]].
    intros ca. split.
    + intros H. injection H as <-. exists caFile, pem. auto.
    + intros (f & p & H & _ & _ & Hr & ->). injection H as <-.
      rewrite Er in Hr. injection Hr as <-. reflexivity.
  - split; [|split; [apply L|]].
    + intros ca. split; [discriminate|]. intros (f & p & H & _ & _ & Hr & _).
      injection H as <-. congruence.
    + intros e m Hin. apply R in Hin. destruct Hin as (-> & -> & Hc).
      split; [reflexivity|]. split; [exact Hc|]. exists caFile. auto.
Qed.

(** X19. The configuration a run resolves with is the one
    [deviceConfig.generate] built for the signed-in user and the new key,
    overwritten in this order: the keys of the device type options with the
    request parameters, [balenaRootCA] when a certificate was read,
    [developmentMode] when the version decides it.  So a key reads, first
    match first: the development mode, the certificate, the request
    parameter of an option, what [generate] put there. *)
Theorem generateConfig_config (E : Externals) (req : Request) (app : Application E)
    (slug : string) (opts : list DeviceTypeOption) (osVersion : option string)
    (config : Config) :
  fst (generateConfig E req app slug opts osVersion) = Resolved config ->
  exists u key base,
    getUser E req = inl u /\
    fst (fst (apiKeyPromise E req app osVersion (inl u))) = inl key /\
    generated E req app slug u key osVersion = inl base /\
    forall k,
      get k config =
      match (if String.eqb k "developmentMode" then developmentMode osVersion else None) with
      | Some dev => Some (j_bool dev)
      | None =>
          match (if String.eqb k "balenaRootCA" then fst (selfSignedRootPromise E)
                 else None) with
          | Some ca => Some (j_string ca)
          | None => get k (assign_options req opts base)
          end
      end.
Proof.
  unfold generateConfig. cbv zeta. destruct (unsupported E osVersion); [discriminate|].
  destruct (getUser E req) as [u|err].
  2:{ destruct (apiKeyPromise _ _ _ _ _) as [[k uk] pk].
      destruct (selfSignedRootPromise E). discriminate. }
  destruct (apiKeyPromise E req app osVersion (inl u)) as [[[key|err] uk] pk] eqn:Ek.
  2:{ destruct (selfSignedRootPromise E). discriminate. }
  destruct (selfSignedRootPromise E) as [ca cap]. cbn [fst snd].
  destruct (generated E req app slug u key osVersion) as [base|err] eqn:Eg; [|discriminate].
  intros H. injection H as <-. exists u, key, base. split; [reflexivity|].
  split; [rewrite Ek; reflexivity|]. split; [exact Eg|].
  intros k.
  destruct (developmentMode osVersion) as [dev|]; destruct ca as [ca|];
    rewrite ?get_set;
    destruct (String.eqb k "developmentMode"); destruct (String.eqb k "balenaRootCA");
    reflexivity.
Qed.

Lemma generateConfig_config_witness :
  exists config,
    fst (generateConfig sample_externals sample_request 7 "raspberrypi3" sample_options
           (Some "2.50.1.dev"%string)) = Resolved config /\
    get "developmentMode" config = Some (j_bool true) /\
    get "apiKey" config = Some (j_string "provisioning-key") /\
    get "wifiSsid" config = Some j_null /\
    get "balenaRootCA" config = None.
Proof.
  eexists. split; [reflexivity|].
  destruct (generateConfig_config sample_externals sample_request 7 "raspberrypi3"
              sample_options (Some "2.50.1.dev"%string) _ eq_refl)
    as (u & key & base & Hu & Hk & Hb & H).
  injection Hu as <-. injection Hk as <-. injection Hb as <-.
  rewrite !H. repeat split; reflexivity.
Defined.

End GenerateConfigFacts.
